(** * pl_mysql_to_supa: MySQL -> Postgres schema translation and batch load

    A shallow embedding of [src/pl_mysql_to_supa.py] and the properties its
    specification states about it: identifier normalisation and
    deduplication, the MySQL -> Postgres type mapping, DDL generation, the
    load-mode switch and the batch loader.

    Python values are modelled as follows.
    - [str] is a sequence of Unicode code points, [list N].  The parts of the
      Unicode character database the program consults ([str.lower],
      the white space of [str.strip], [str.isdigit], the class [\d] of [re])
      are collected in a record [unicode_db]; theorems quantify over every
      database that behaves on ASCII the way Python's does.
    - [int] is [N] or [Z], unbounded as in Python.
    - [dict] is a finite map [gmap].
    - an exception is a value [Raise e] of the type [result].
    - a psycopg2 connection is the trace of statements and commits issued on
      it; a [psycopg2.sql] object is a tree of [composable]. *)

From Stdlib Require Import NArith ZArith List String Ascii Lia.
From Stdlib Require Import DecimalN DecimalPos DecimalFacts.
From stdpp Require Import base option list gmap.
From Equations Require Import Equations.
Import ListNotations.

Local Open Scope N_scope.

(** ** Python strings *)

Abbreviation pystr := (list N).

(** Code points of a string literal. *)
Definition cps (s : string) : pystr :=
  List.map N_of_ascii (list_ascii_of_string s).
Arguments cps : simpl never.

Definition in_range (lo hi c : N) : bool := (lo <=? c) && (c <=? hi).

Definition is_az (c : N) : bool := in_range 97 122 c.
Definition is_AZ (c : N) : bool := in_range 65 90 c.
Definition is_09 (c : N) : bool := in_range 48 57 c.
Definition is_us (c : N) : bool := c =? 95.
Definition is_ascii (c : N) : bool := c <? 128.

(** The character class [[a-z0-9_]] and its complement [[^a-z0-9_]]. *)
Definition ident_class (c : N) : bool := is_az c || is_09 c || is_us c.
Definition non_ident_class (c : N) : bool := negb (ident_class c).

(** What the program asks of the Unicode character database. *)
Record unicode_db : Type := {
  py_lower : pystr -> pystr;   (* str.lower() *)
  py_isspace : N -> bool;      (* characters removed by str.strip() *)
  py_isdigit : N -> bool;      (* str.isdigit() of a one-character string *)
  re_digit : N -> bool         (* the class \d of a str pattern *)
}.

Definition ascii_lower_char (c : N) : N := if is_AZ c then c + 32 else c.

(** ASCII white space of [str.strip()]: TAB, LF, VT, FF, CR, FS, GS, RS, US
    and the space. *)
Definition ascii_isspace (c : N) : bool := in_range 9 13 c || in_range 28 32 c.

(** A database agrees with Python's on ASCII text. *)
Definition ascii_conformant (U : unicode_db) : Prop :=
  (forall s, forallb is_ascii s = true ->
             py_lower U s = List.map ascii_lower_char s) /\
  (forall c, is_ascii c = true -> py_isspace U c = ascii_isspace c) /\
  (forall c, is_ascii c = true -> py_isdigit U c = is_09 c) /\
  (forall c, is_ascii c = true -> re_digit U c = is_09 c).

(** The database that knows ASCII only: other characters have no case and
    are neither white space nor digits. *)
Definition ascii_db : unicode_db := {|
  py_lower := List.map ascii_lower_char;
  py_isspace := ascii_isspace;
  py_isdigit := is_09;
  re_digit := is_09
|}.

Definition str_eqb (a b : pystr) : bool := bool_decide (a = b).

(** [x in (a, b, ...)] for a tuple of strings. *)
Definition str_in (x : pystr) (l : list pystr) : bool :=
  existsb (str_eqb x) l.

Fixpoint lstrip (p : N -> bool) (s : pystr) : pystr :=
  match s with
  | [] => []
  | c :: t => if p c then lstrip p t else s
  end.

Definition rstrip (p : N -> bool) (s : pystr) : pystr :=
  rev (lstrip p (rev s)).

(** [s.strip()] with [p] the white space, [s.strip(chars)] with [p] the
    membership in [chars]. *)
Definition strip (p : N -> bool) (s : pystr) : pystr :=
  rstrip p (lstrip p s).

Fixpoint startswith (p s : pystr) : bool :=
  match p, s with
  | [], _ => true
  | _ :: _, [] => false
  | a :: p', b :: s' => (a =? b) && startswith p' s'
  end.

(** [needle in hay] for strings. *)
Fixpoint str_contains (needle hay : pystr) : bool :=
  startswith needle hay ||
  match hay with
  | [] => false
  | _ :: t => str_contains needle t
  end.

(** [sep.join(l)] *)
Fixpoint str_join (sep : pystr) (l : list pystr) : pystr :=
  match l with
  | [] => []
  | [x] => x
  | x :: t => x ++ sep ++ str_join sep t
  end.

Fixpoint uint_cps (d : Decimal.uint) : pystr :=
  match d with
  | Decimal.Nil => []
  | Decimal.D0 d => 48 :: uint_cps d
  | Decimal.D1 d => 49 :: uint_cps d
  | Decimal.D2 d => 50 :: uint_cps d
  | Decimal.D3 d => 51 :: uint_cps d
  | Decimal.D4 d => 52 :: uint_cps d
  | Decimal.D5 d => 53 :: uint_cps d
  | Decimal.D6 d => 54 :: uint_cps d
  | Decimal.D7 d => 55 :: uint_cps d
  | Decimal.D8 d => 56 :: uint_cps d
  | Decimal.D9 d => 57 :: uint_cps d
  end.

(** [str(n)] for a non-negative [int]. *)
Definition py_str_int (n : N) : pystr := uint_cps (N.to_uint n).

(** ** Exceptions *)

Inductive py_exn : Type := IndexError | KeyError | RuntimeError.

Inductive result (A : Type) : Type :=
| Ok (a : A)
| Raise (e : py_exn).
Arguments Ok {A} a.
Arguments Raise {A} e.

Definition bind {A B : Type} (c : result A) (k : A -> result B) : result B :=
  match c with
  | Ok a => k a
  | Raise e => Raise e
  end.

Notation "'let*' x ':=' c 'in' k" := (bind c (fun x => k))
  (at level 10, x pattern, c at level 100, k at level 200).

(** A value together with the equation saying what it is the value of. *)
Definition inspect {A : Type} (a : A) : {b : A | a = b} := exist _ a eq_refl.

(** [s[0]] *)
Definition index0 (s : pystr) : result N :=
  match s with
  | [] => Raise IndexError
  | c :: _ => Ok c
  end.

(** [d[k]] *)
Definition dict_get {V : Type} (d : gmap pystr V) (k : pystr) : result V :=
  match d !! k with
  | Some v => Ok v
  | None => Raise KeyError
  end.

(** [k in d] *)
Definition dict_contains {V : Type} (d : gmap pystr V) (k : pystr) : bool :=
  match d !! k with
  | Some _ => true
  | None => false
  end.

(** ** Regular expressions used by the program *)

(** [re.sub(r"[C]+", repl, s)]: every maximal run of characters of the class
    [cls] is replaced by [repl].  [in_run] tells that the previous character
    belonged to a run already replaced. *)
Fixpoint re_sub_runs (cls : N -> bool) (repl : pystr) (in_run : bool)
    (s : pystr) : pystr :=
  match s with
  | [] => []
  | c :: t =>
      if cls c then
        if in_run then re_sub_runs cls repl true t
        else repl ++ re_sub_runs cls repl true t
      else c :: re_sub_runs cls repl false t
  end.

Definition re_sub_class_plus (cls : N -> bool) (repl s : pystr) : pystr :=
  re_sub_runs cls repl false s.

(** The longest prefix of [s] in the class [cls], and what follows it: a
    greedy [[C]*]. *)
Fixpoint span (cls : N -> bool) (s : pystr) : pystr * pystr :=
  match s with
  | [] => ([], [])
  | c :: t =>
      if cls c then let '(a, b) := span cls t in (c :: a, b)
      else ([], s)
  end.

(** [s] starts with the character [c]: the rest of [s]. *)
Definition eat (c : N) (s : pystr) : option pystr :=
  match s with
  | [] => None
  | x :: t => if x =? c then Some t else None
  end.

(** A greedy [\d+] at the head of [s]; since what follows it in each pattern
    of the program is not a digit, giving characters back never helps. *)
Definition digits1 (d : N -> bool) (s : pystr) : option (pystr * pystr) :=
  match span d s with
  | ([], _) => None
  | (ds, rest) => Some (ds, rest)
  end.

(** [re.search] tries the pattern at every position, leftmost first. *)
Fixpoint re_search {A : Type} (m : pystr -> option A) (s : pystr) : option A :=
  match m s with
  | Some r => Some r
  | None =>
      match s with
      | [] => None
      | _ :: t => re_search m t
      end
  end.

(** [\((\d+),(\d+)\)] at the head of [s]: groups 1 and 2. *)
Definition match_precision_scale (d : N -> bool) (s : pystr)
    : option (pystr * pystr) :=
  t ← eat 40 s;
  '(g1, r1) ← digits1 d t;
  t2 ← eat 44 r1;
  '(g2, r2) ← digits1 d t2;
  _ ← eat 41 r2;
  Some (g1, g2).

(** [\((\d+)\)] at the head of [s]: group 1. *)
Definition match_length (d : N -> bool) (s : pystr) : option pystr :=
  t ← eat 40 s;
  '(g1, r1) ← digits1 d t;
  _ ← eat 41 r1;
  Some g1.

(** [re.fullmatch(r"[-+]?\d+(\.\d+)?", s)] as a truth value. *)
Definition fullmatch_number (d : N -> bool) (s : pystr) : bool :=
  let s1 := match s with
            | c :: t => if (c =? 45) || (c =? 43) then t else s
            | [] => s
            end in
  match digits1 d s1 with
  | None => false
  | Some (_, []) => true
  | Some (_, c :: t) =>
      (c =? 46) &&
      match digits1 d t with
      | Some (_, []) => true
      | _ => false
      end
  end.

(** ** Shapes of identifiers *)

(** A full match of [[a-z_][a-z0-9_]*]. *)
Definition matches_identifier (s : pystr) : bool :=
  match s with
  | [] => false
  | c :: t => (is_az c || is_us c) && forallb ident_class t
  end.

Fixpoint no_double_us (s : pystr) : bool :=
  match s with
  | [] => true
  | c :: t =>
      match t with
      | [] => true
      | c' :: _ => negb (is_us c && is_us c') && no_double_us t
      end
  end.

Definition head_is (p : N -> bool) (s : pystr) : bool :=
  match s with
  | [] => false
  | c :: _ => p c
  end.

Definition last_is (p : N -> bool) (s : pystr) : bool := head_is p (rev s).

(** What [normalize_ident] returns: a letter first, then letters, digits and
    single underscores, the last character not an underscore. *)
Definition normal_form (s : pystr) : bool :=
  head_is is_az s && forallb ident_class s && no_double_us s
  && negb (last_is is_us s).

(** ** psycopg2.sql and the connections *)

(** A [psycopg2.sql.Composable]. *)
#[warnings="-register-all"]
Inductive composable : Type :=
| SQL (s : pystr)
| Identifier (s : pystr)
| Literal (s : pystr)
| Composed (l : list composable).

Definition composed_items (c : composable) : list composable :=
  match c with
  | Composed l => l
  | _ => [c]
  end.

(** [a + b] *)
Definition sql_add (a b : composable) : composable :=
  Composed (composed_items a ++ composed_items b).

Fixpoint sql_join_items (sep : composable) (l : list composable)
    : list composable :=
  match l with
  | [] => []
  | [x] => [x]
  | x :: t => x :: sep :: sql_join_items sep t
  end.

(** [sep.join(l)] *)
Definition sql_join (sep : composable) (l : list composable) : composable :=
  Composed (sql_join_items sep l).

Definition sql_text (pre : pystr) : list composable :=
  match pre with
  | [] => []
  | _ => [SQL pre]
  end.

(** [SQL(tmpl).format] on its arguments, for a template whose only replacement fields
    are [{}]: the text before each field, when not empty, then the next
    argument.  [pre] is the text read since the last field. *)
Fixpoint sql_format_items (tmpl pre : pystr) (args : list composable)
    : result (list composable) :=
  match tmpl with
  | [] => Ok (sql_text pre)
  | c :: t =>
      match t with
      | c' :: t' =>
          if (c =? 123) && (c' =? 125) then
            match args with
            | [] => Raise IndexError
            | a :: args' =>
                let* r := sql_format_items t' [] args' in
                Ok (sql_text pre ++ a :: r)
            end
          else sql_format_items t (pre ++ [c]) args
      | [] => sql_format_items t (pre ++ [c]) args
      end
  end.

Definition sql_format (tmpl : pystr) (args : list composable)
    : result composable :=
  let* items := sql_format_items tmpl [] args in
  Ok (Composed items).

(** The leaves of a composable, in the order they are rendered. *)
Fixpoint sql_leaves (c : composable) : list composable :=
  match c with
  | Composed l => flat_map sql_leaves l
  | _ => [c]
  end.

(** The text that opens a PRIMARY KEY clause. *)
Definition pk_fragment : composable := SQL (cps ", PRIMARY KEY (").

(** One dictionary row of [information_schema.COLUMNS]. *)
Record mysql_column : Type := {
  COLUMN_NAME : pystr;
  COLUMN_TYPE : option pystr;
  DATA_TYPE : option pystr;
  IS_NULLABLE : pystr;
  COLUMN_DEFAULT : option pystr
}.

Section Connections.

(** A row of a result set. *)
Variable Row : Type.

(** What is issued on the target connection, oldest first. *)
Inductive pg_event : Type :=
| PgExecute (stmt : composable)
| PgExecuteValues (stmt : composable) (page : list Row)
| PgCommit.

Definition pg_conn : Type := list pg_event.

(** The event is one multi-row insert statement. *)
Definition is_insert (e : pg_event) : bool :=
  match e with
  | PgExecuteValues _ _ => true
  | _ => false
  end.

Definition pg_execute (pg : pg_conn) (stmt : composable) : pg_conn :=
  pg ++ [PgExecute stmt].

Definition pg_commit (pg : pg_conn) : pg_conn := pg ++ [PgCommit].

(** The pages of [psycopg2.extras._paginate]: [page_size] items each, the
    last one shorter and never empty.  For [page_size = 0] the generator does
    not end; [fuel] stops it, and [load_data] never asks for it. *)
Fixpoint paginate_fuel (fuel page_size : nat) (seq : list Row)
    : list (list Row) :=
  match fuel with
  | O => []
  | S fuel =>
      if (length seq <? page_size)%nat then
        match seq with
        | [] => []
        | _ => [seq]
        end
      else take page_size seq :: paginate_fuel fuel page_size (drop page_size seq)
  end.

Definition paginate (page_size : nat) (seq : list Row) : list (list Row) :=
  paginate_fuel (S (length seq)) page_size seq.

(** [execute_values(cur, stmt, argslist, page_size=...)]: one statement per
    page. *)
Definition execute_values (pg : pg_conn) (stmt : composable)
    (argslist : list Row) (page_size : nat) : pg_conn :=
  pg ++ List.map (PgExecuteValues stmt) (paginate page_size argslist).

(** The source connection: the result set of a SELECT and the two catalog
    queries of the program. *)
Record my_conn : Type := {
  my_select : pystr -> list Row;
  my_columns : pystr -> pystr -> list mysql_column;
  my_pk : pystr -> pystr -> list pystr
}.

(** [cursor.fetchmany(size)] of mysql.connector on the rows still unread:
    [cnt = size or self.arraysize] rows, with [arraysize = 1]. *)
Definition fetchmany (size : Z) (unread : list Row) : list Row * list Row :=
  let cnt := if (size =? 0)%Z then 1%Z else size in
  (take (Z.to_nat cnt) unread, drop (Z.to_nat cnt) unread).

(** The [while True] loop of [load_data]: [unread] is what the source cursor
    has not delivered yet. *)
Equations? load_loop (batch_size : Z) (stmt : composable)
    (unread : list Row) (pg : pg_conn) (total : Z)
    : pg_conn * Z by wf (length unread) lt :=
  load_loop batch_size stmt unread pg total
    with inspect (fetchmany batch_size unread) := {
    | exist _ ([], _) _ := (pg, total);
    | exist _ (r :: rows, unread') _ :=
        let pg := execute_values pg stmt (r :: rows) (length (r :: rows)) in
        let pg := pg_commit pg in
        load_loop batch_size stmt unread' pg
          (total + Z.of_nat (length (r :: rows)))
    }.
Proof.
  match goal with H : _ = _ :: _ |- _ => rename H into Hrows end.
  destruct (Z.to_nat _) as [|k]; [discriminate Hrows|].
  destruct unread as [|x u]; [discriminate Hrows|].
  rewrite length_drop. simpl. lia.
Qed.

End Connections.

Arguments PgExecute {Row} stmt.
Arguments PgExecuteValues {Row} stmt page.
Arguments PgCommit {Row}.
Arguments is_insert {Row} e.
Arguments pg_execute {Row} pg stmt.
Arguments pg_commit {Row} pg.
Arguments paginate_fuel {Row} fuel page_size seq.
Arguments paginate {Row} page_size seq.
Arguments execute_values {Row} pg stmt argslist page_size.
Arguments my_select {Row} m _.
Arguments my_columns {Row} m _ _.
Arguments my_pk {Row} m _ _.
Arguments fetchmany {Row} size unread.
Arguments load_loop {Row} batch_size stmt unread pg total.

(** ** Utils *)

Section Program.

Variable U : unicode_db.

(** [normalize_ident]: strip and lower-case, replace what is outside
    [[a-z0-9_]], collapse and strip underscores, then the two repairs. *)
Definition normalize_ident (name : pystr) : result pystr :=
  let s := py_lower U (strip (py_isspace U) name) in
  let s := re_sub_class_plus non_ident_class (cps "_") s in
  let s := strip is_us (re_sub_class_plus is_us (cps "_") s) in
  let s := match s with [] => cps "col" | _ => s end in
  let* c := index0 s in
  Ok (if py_isdigit U c then cps "c_" ++ s else s).

(** The [for] loop of [dedupe_idents], with its two locals. *)
Fixpoint dedupe_loop (idents : list pystr) (seen : gmap pystr N)
    (out : list pystr) : result (list pystr) :=
  match idents with
  | [] => Ok out
  | x :: rest =>
      if negb (dict_contains seen x) then
        dedupe_loop rest (<[x := 1]> seen) (out ++ [x])
      else
        let* n := dict_get seen x in
        let seen := <[x := n + 1]> seen in
        let* n := dict_get seen x in
        dedupe_loop rest seen (out ++ [x ++ cps "_" ++ py_str_int n])
  end.

Definition dedupe_idents (idents : list pystr) : result (list pystr) :=
  dedupe_loop idents ∅ [].

(** [s or ""] for an argument that may be [None]. *)
Definition or_empty (s : option pystr) : pystr :=
  match s with
  | Some s => s
  | None => []
  end.

Definition map_mysql_to_pg (data_type column_type : option pystr) : pystr :=
  let dt := py_lower U (or_empty data_type) in
  let ct := py_lower U (or_empty column_type) in
  if str_in dt [cps "int"; cps "integer"; cps "mediumint"] then cps "integer"
  else if str_eqb dt (cps "bigint") then cps "bigint"
  else if str_eqb dt (cps "smallint") then cps "smallint"
  else if str_eqb dt (cps "tinyint") then
    if str_contains (cps "tinyint(1)") ct then cps "boolean" else cps "smallint"
  else if str_in dt [cps "decimal"; cps "numeric"] then
    match re_search (match_precision_scale (re_digit U)) ct with
    | Some (g1, g2) => cps "numeric(" ++ g1 ++ cps "," ++ g2 ++ cps ")"
    | None => cps "numeric"
    end
  else if str_eqb dt (cps "float") then cps "real"
  else if str_eqb dt (cps "double") then cps "double precision"
  else if str_in dt [cps "varchar"; cps "char"] then
    match re_search (match_length (re_digit U)) ct with
    | Some g1 => cps "varchar(" ++ g1 ++ cps ")"
    | None => cps "text"
    end
  else if str_in dt [cps "text"; cps "mediumtext"; cps "longtext"] then cps "text"
  else if str_eqb dt (cps "datetime") then cps "timestamp"
  else if str_eqb dt (cps "timestamp") then cps "timestamptz"
  else if str_eqb dt (cps "date") then cps "date"
  else if str_eqb dt (cps "time") then cps "time"
  else if str_eqb dt (cps "json") then cps "jsonb"
  else if str_in dt [cps "blob"; cps "mediumblob"; cps "longblob";
                     cps "binary"; cps "varbinary"] then cps "bytea"
  else cps "text".

(** ** MySQL introspection *)

Definition mysql_columns {Row : Type} (conn : my_conn Row) (db table : pystr)
    : result (list mysql_column) :=
  let cols := my_columns conn db table in
  match cols with
  | [] => Raise RuntimeError
  | _ => Ok cols
  end.

Definition mysql_pk {Row : Type} (conn : my_conn Row) (db table : pystr)
    : list pystr :=
  my_pk conn db table.

(** ** Supabase DDL + load *)

Fixpoint map_result {A B : Type} (f : A -> result B) (l : list A)
    : result (list B) :=
  match l with
  | [] => Ok []
  | x :: t =>
      let* y := f x in
      let* r := map_result f t in
      Ok (y :: r)
  end.

(** [dict(pairs)]: a later pair replaces an earlier one with the same key. *)
Definition dict_of_pairs (pairs : list (pystr * pystr)) : gmap pystr pystr :=
  fold_left (fun d kv => <[kv.1 := kv.2]> d) pairs ∅.

(** [[name_map[x] for x in pk if x in name_map]] *)
Fixpoint pk_lookup (name_map : gmap pystr pystr) (pk : list pystr)
    : result (list pystr) :=
  match pk with
  | [] => Ok []
  | x :: t =>
      if dict_contains name_map x then
        let* v := dict_get name_map x in
        let* r := pk_lookup name_map t in
        Ok (v :: r)
      else pk_lookup name_map t
  end.

(** [pk_norm] *)
Definition pk_normalized (mysql_col_names pg_col_names mysql_pk_cols : list pystr)
    : result (list pystr) :=
  match mysql_pk_cols with
  | [] => Ok []
  | _ =>
      let name_map := dict_of_pairs (zip mysql_col_names pg_col_names) in
      pk_lookup name_map mysql_pk_cols
  end.

(** [default_sql] of one column in [ensure_schema_and_table]. *)
Definition default_clause (pg_type : pystr) (default : option pystr)
    : composable :=
  match default with
  | None => SQL []
  | Some d =>
      if str_eqb pg_type (cps "boolean") then
        if str_in d [cps "0"; cps "false"; cps "FALSE"] then
          SQL (cps " DEFAULT false")
        else if str_in d [cps "1"; cps "true"; cps "TRUE"] then
          SQL (cps " DEFAULT true")
        else SQL []
      else if existsb (fun p => startswith p pg_type)
                [cps "integer"; cps "bigint"; cps "smallint"; cps "numeric";
                 cps "real"; cps "double"] then
        if fullmatch_number (re_digit U) d then
          sql_add (SQL (cps " DEFAULT ")) (SQL d)
        else SQL []
      else if str_eqb pg_type (cps "text") || startswith (cps "varchar") pg_type then
        sql_add (SQL (cps " DEFAULT ")) (Literal d)
      else SQL []
  end.

(** One entry of [col_defs_sql]. *)
Definition column_def (c : mysql_column) (pg_name : pystr) : result composable :=
  let pg_type := map_mysql_to_pg (DATA_TYPE c) (COLUMN_TYPE c) in
  let nullable := str_eqb (IS_NULLABLE c) (cps "YES") in
  let default_sql := default_clause pg_type (COLUMN_DEFAULT c) in
  let null_sql := if nullable then SQL [] else SQL (cps " NOT NULL") in
  sql_format (cps "{} {}{}{}")
    [Identifier pg_name; SQL pg_type; default_sql; null_sql].

(** [pk_sql] *)
Definition primary_key_clause (pk_norm : list pystr) : result composable :=
  match pk_norm with
  | [] => Ok (SQL [])
  | _ =>
      sql_format (cps ", PRIMARY KEY ({})")
        [sql_join (SQL (cps ", ")) (List.map Identifier pk_norm)]
  end.

Definition ensure_schema_and_table {Row : Type} (pg : pg_conn Row)
    (schema table : pystr) (mysql_cols : list mysql_column)
    (mysql_pk_cols : list pystr)
    : result (pg_conn Row * (pystr * pystr * list pystr * list pystr)) :=
  let* schema_norm := normalize_ident schema in
  let* table_norm := normalize_ident table in
  let mysql_col_names := List.map COLUMN_NAME mysql_cols in
  let* normalized := map_result normalize_ident mysql_col_names in
  let* pg_col_names := dedupe_idents normalized in
  let* pk_norm := pk_normalized mysql_col_names pg_col_names mysql_pk_cols in
  let* col_defs_sql :=
    map_result (fun cn => column_def cn.1 cn.2) (zip mysql_cols pg_col_names) in
  let* pk_sql := primary_key_clause pk_norm in
  let* create_schema :=
    sql_format (cps "CREATE SCHEMA IF NOT EXISTS {};") [Identifier schema_norm] in
  let* create_table :=
    sql_format (cps " CREATE TABLE IF NOT EXISTS {}.{} (")
      [Identifier schema_norm; Identifier table_norm] in
  let ddl :=
    sql_add
      (sql_add
         (sql_add (sql_add create_schema create_table)
            (sql_join (SQL (cps ", ")) col_defs_sql))
         pk_sql)
      (SQL (cps ");")) in
  let pg := pg_execute pg ddl in
  let pg := pg_commit pg in
  Ok (pg, (schema_norm, table_norm, pg_col_names, mysql_col_names)).

Definition truncate_stmt (schema_norm table_norm : pystr) : result composable :=
  sql_format (cps "TRUNCATE TABLE {}.{};")
    [Identifier schema_norm; Identifier table_norm].

Definition maybe_truncate {Row : Type} (pg : pg_conn Row)
    (schema_norm table_norm mode : pystr) : result (pg_conn Row) :=
  if str_eqb mode (cps "replace") then
    let* stmt := truncate_stmt schema_norm table_norm in
    let pg := pg_execute pg stmt in
    Ok (pg_commit pg)
  else Ok pg.

Definition backquoted (c : pystr) : pystr := cps "`" ++ c ++ cps "`".

Definition select_sql (mysql_cols : list pystr) (src_db src_table : pystr)
    : pystr :=
  cps "SELECT " ++ str_join (cps ", ") (List.map backquoted mysql_cols)
  ++ cps " FROM " ++ backquoted src_db ++ cps "." ++ backquoted src_table.

Definition insert_stmt (schema_norm table_norm : pystr) (pg_cols : list pystr)
    : result composable :=
  sql_format (cps "INSERT INTO {}.{} ({}) VALUES %s")
    [Identifier schema_norm; Identifier table_norm;
     sql_join (SQL (cps ", ")) (List.map Identifier pg_cols)].

Definition load_data {Row : Type} (my : my_conn Row) (pg : pg_conn Row)
    (src_db src_table schema_norm table_norm : pystr)
    (pg_cols mysql_cols : list pystr) (batch_size : Z)
    : result (pg_conn Row * Z) :=
  let query := select_sql mysql_cols src_db src_table in
  let mcur := my_select my query in
  let* stmt := insert_stmt schema_norm table_norm pg_cols in
  Ok (load_loop batch_size stmt mcur pg 0%Z).

(** ** main *)

(** [os.getenv(key, default)] *)
Definition getenv (env : gmap pystr pystr) (key default : pystr) : pystr :=
  match env !! key with
  | Some v => v
  | None => default
  end.

(** [load_mode] of [main]. *)
Definition main_load_mode (env : gmap pystr pystr) : pystr :=
  py_lower U (strip (py_isspace U) (getenv env (cps "LOAD_MODE") (cps "append"))).

(** The body of the loop of [main] for one table-to-table entry, from the
    introspection of the source on. *)
Definition main_ingest {Row : Type} (my : my_conn Row) (pg : pg_conn Row)
    (load_mode : pystr) (batch_size : Z)
    (src_db src_table tgt_schema tgt_table : pystr)
    : result (pg_conn Row * Z) :=
  let* cols := mysql_columns my src_db src_table in
  let pk := mysql_pk my src_db src_table in
  let* (pg, (schema_norm, table_norm, pg_cols, mysql_cols)) :=
    ensure_schema_and_table pg tgt_schema tgt_table cols pk in
  let* pg := maybe_truncate pg schema_norm table_norm load_mode in
  load_data my pg src_db src_table schema_norm table_norm pg_cols mysql_cols
    batch_size.

End Program.


(** ** The type mapping *)

(** The native type codes [map_mysql_to_pg] tests for. *)
Definition recognized_types : list pystr :=
  [cps "int"; cps "integer"; cps "mediumint"; cps "bigint"; cps "smallint";
   cps "tinyint"; cps "decimal"; cps "numeric"; cps "float"; cps "double";
   cps "varchar"; cps "char"; cps "text"; cps "mediumtext"; cps "longtext";
   cps "datetime"; cps "timestamp"; cps "date"; cps "time"; cps "json";
   cps "blob"; cps "mediumblob"; cps "longblob"; cps "binary";
   cps "varbinary"].

(** The target types without parameters. *)
Definition fixed_targets : list pystr :=
  [cps "integer"; cps "bigint"; cps "smallint"; cps "boolean"; cps "numeric";
   cps "real"; cps "double precision"; cps "text"; cps "timestamp";
   cps "timestamptz"; cps "date"; cps "time"; cps "jsonb"; cps "bytea"].

Definition is_digits (d : N -> bool) (s : pystr) : Prop :=
  s <> [] /\ forallb d s = true.

(** A target type descriptor: a fixed name, [numeric(p,s)] or [varchar(n)]. *)
Definition target_type (d : N -> bool) (t : pystr) : Prop :=
  In t fixed_targets \/
  (exists p s, is_digits d p /\ is_digits d s /\
               t = cps "numeric(" ++ p ++ cps "," ++ s ++ cps ")") \/
  (exists n, is_digits d n /\ t = cps "varchar(" ++ n ++ cps ")").

(** The COLUMN_TYPE that MySQL reports for a TINYINT column: the type name,
    the display width when one is declared, then the attributes. *)
Definition tinyint_column_type (width : option N) (unsigned zerofill : bool)
    : pystr :=
  cps "tinyint"
  ++ match width with
     | Some w => cps "(" ++ py_str_int w ++ cps ")"
     | None => []
     end
  ++ (if unsigned then cps " unsigned" else [])
  ++ (if zerofill then cps " zerofill" else []).

(** ** What deduplication is expected to produce *)

(** How many times [x] occurs in [l]. *)
Fixpoint count_str (x : pystr) (l : list pystr) : N :=
  match l with
  | [] => 0
  | y :: t => (if str_eqb y x then 1 else 0) + count_str x t
  end.

(** The name the program gives to an occurrence of [x] that comes after
    [prior] earlier ones: the suffix is the number of the occurrence. *)
Definition deduped_name (x : pystr) (prior : N) : pystr :=
  if prior =? 0 then x else x ++ cps "_" ++ py_str_int (prior + 1).

(** The same in the words of the specification: the suffix is the count of
    prior occurrences. *)
Definition deduped_name_spec (x : pystr) (prior : N) : pystr :=
  if prior =? 0 then x else x ++ cps "_" ++ py_str_int prior.

(** [seen] holds, for the names met so far, how often each was met. *)
Definition seen_counts (seen : gmap pystr N) (done : list pystr) : Prop :=
  forall y, seen !! y = if count_str y done =? 0 then None
                        else Some (count_str y done).

(** ** A small source table for the examples *)

Definition example_columns : list mysql_column :=
  [ {| COLUMN_NAME := cps "id"; COLUMN_TYPE := Some (cps "int(11)");
       DATA_TYPE := Some (cps "int"); IS_NULLABLE := cps "NO";
       COLUMN_DEFAULT := None |};
    {| COLUMN_NAME := cps "Precio m2"; COLUMN_TYPE := Some (cps "decimal(10,2)");
       DATA_TYPE := Some (cps "decimal"); IS_NULLABLE := cps "YES";
       COLUMN_DEFAULT := Some (cps "0.00") |} ].

(** Rows are pairs of numbers here. *)
Definition example_source : my_conn (nat * nat) := {|
  my_select := fun _ => [(1, 10); (2, 20); (3, 30)]%nat;
  my_columns := fun _ _ => example_columns;
  my_pk := fun _ _ => [cps "id"]
|}.

Definition example_env : gmap pystr pystr :=
  <[cps "LOAD_MODE" := cps " Replace "]> ∅.

(** ** main: the configuration and the loop over the entries *)


(** [fixed_schema] of [main]. *)
Definition main_fixed_schema (U : unicode_db) (env : gmap pystr pystr) : pystr :=
  strip (py_isspace U) (getenv env (cps "SUPABASE_SCHEMA") (cps "prd_ahp")).

(** [use_target_schema] of [main]. *)
Definition main_use_target_schema (U : unicode_db) (env : gmap pystr pystr)
    : bool :=
  str_eqb (strip (py_isspace U) (getenv env (cps "USE_TARGET_SCHEMA") (cps "0")))
    (cps "1").

(** [d.get(k, default)] *)
Definition dict_get_default (d : gmap pystr pystr) (k default : pystr) : pystr :=
  match d !! k with
  | Some v => v
  | None => default
  end.

(** [tgt_schema] of [main]. *)
Definition main_tgt_schema (U : unicode_db) (fixed_schema : pystr)
    (use_target_schema : bool) (target : gmap pystr pystr) : result pystr :=
  if use_target_schema then
    normalize_ident U (dict_get_default target (cps "database") fixed_schema)
  else Ok fixed_schema.



(** ** Further notions used by the properties *)

(** An ASCII character that is not an upper-case letter: [str.lower] leaves
    it alone. *)
Definition lower_stable (c : N) : bool := is_ascii c && negb (is_AZ c).

(** A character of a signed decimal numeral: a digit, a sign or the point. *)
Definition numeral_char (d : N -> bool) (c : N) : bool :=
  d c || (c =? 43) || (c =? 45) || (c =? 46).

(** * Properties *)

(** ** Character classes *)

Ltac class_cases :=
  intros;
  unfold non_ident_class, ascii_lower_char, ascii_isspace in *;
  unfold ident_class in *;
  unfold is_az, is_AZ, is_09, is_us, is_ascii in *;
  unfold in_range in *;
  repeat match goal with
    | |- context [N.leb ?a ?b] => destruct (N.leb_spec a b)
    | |- context [N.ltb ?a ?b] => destruct (N.ltb_spec a b)
    | |- context [N.eqb ?a ?b] => destruct (N.eqb_spec a b)
    | H : context [N.leb ?a ?b] |- _ => destruct (N.leb_spec a b)
    | H : context [N.ltb ?a ?b] |- _ => destruct (N.ltb_spec a b)
    | H : context [N.eqb ?a ?b] |- _ => destruct (N.eqb_spec a b)
    end;
  simpl in *; try congruence; try lia.

Lemma ident_class_ascii c : ident_class c = true -> is_ascii c = true.
Proof. class_cases. Qed.

Lemma ident_class_not_space c : ident_class c = true -> ascii_isspace c = false.
Proof. class_cases. Qed.

Lemma ident_class_lower c : ident_class c = true -> ascii_lower_char c = c.
Proof. class_cases. Qed.

Lemma ident_class_cases c :
  ident_class c = true -> is_az c = true \/ is_09 c = true \/ c = 95.
Proof. class_cases; auto. Qed.

Lemma is_us_eq c : is_us c = true <-> c = 95.
Proof. unfold is_us. apply N.eqb_eq. Qed.

Lemma is_az_not_09 c : is_az c = true -> is_09 c = false.
Proof. class_cases. Qed.

Lemma is_az_not_us c : is_az c = true -> is_us c = false.
Proof. class_cases. Qed.

Lemma is_09_not_us c : is_09 c = true -> is_us c = false.
Proof. class_cases. Qed.

Lemma forallb_ident_ascii s :
  forallb ident_class s = true -> forallb is_ascii s = true.
Proof.
  rewrite !forallb_forall. intros H c Hc. apply ident_class_ascii, H, Hc.
Qed.

Lemma map_lower_ident s :
  forallb ident_class s = true -> List.map ascii_lower_char s = s.
Proof.
  induction s as [|c t IH]; simpl; [reflexivity|].
  intros [Hc Ht]%andb_prop. now rewrite ident_class_lower, IH.
Qed.

(** ** Stripping *)

Lemma lstrip_suffix p s : exists a, s = a ++ lstrip p s.
Proof.
  induction s as [|c t [a IH]]; simpl.
  - now exists [].
  - destruct (p c).
    + exists (c :: a). simpl. now f_equal.
    + now exists [].
Qed.

Lemma lstrip_head p s : head_is p (lstrip p s) = false.
Proof.
  induction s as [|c t IH]; simpl; [reflexivity|].
  destruct (p c) eqn:E; [exact IH|]. simpl. exact E.
Qed.

Lemma lstrip_keep p s : head_is p s = false -> lstrip p s = s.
Proof. destruct s as [|c t]; simpl; [reflexivity|]. now intros ->. Qed.

Lemma lstrip_app_keep p x c :
  p c = false -> lstrip p (x ++ [c]) = lstrip p x ++ [c].
Proof.
  intros Hc. induction x as [|a x IH]; simpl.
  - now rewrite Hc.
  - destruct (p a); [exact IH|reflexivity].
Qed.

Lemma rstrip_prefix p s : exists b, s = rstrip p s ++ b.
Proof.
  unfold rstrip. destruct (lstrip_suffix p (rev s)) as [a Ha].
  exists (rev a). rewrite <- rev_app_distr, <- Ha. now rewrite rev_involutive.
Qed.

Lemma rstrip_last p s : last_is p (rstrip p s) = false.
Proof.
  unfold last_is, rstrip. rewrite rev_involutive. apply lstrip_head.
Qed.

Lemma rstrip_keep p s : last_is p s = false -> rstrip p s = s.
Proof.
  unfold last_is, rstrip. intros H. rewrite lstrip_keep by exact H.
  apply rev_involutive.
Qed.

Lemma rstrip_cons_keep p c t :
  p c = false -> rstrip p (c :: t) = c :: rstrip p t.
Proof.
  intros Hc. unfold rstrip. simpl.
  rewrite lstrip_app_keep by exact Hc. now rewrite rev_app_distr.
Qed.

Lemma strip_infix p s : exists a b, s = a ++ strip p s ++ b.
Proof.
  unfold strip. destruct (lstrip_suffix p s) as [a Ha].
  destruct (rstrip_prefix p (lstrip p s)) as [b Hb].
  exists a, b. now rewrite <- Hb.
Qed.

Lemma strip_head p s : head_is p (strip p s) = false.
Proof.
  unfold strip. pose proof (lstrip_head p s) as H.
  destruct (lstrip p s) as [|c t]; [reflexivity|].
  simpl in H. rewrite rstrip_cons_keep by exact H. exact H.
Qed.

Lemma strip_last p s : last_is p (strip p s) = false.
Proof. apply rstrip_last. Qed.

Lemma strip_keep p s :
  head_is p s = false -> last_is p s = false -> strip p s = s.
Proof.
  intros Hh Hl. unfold strip. rewrite lstrip_keep by exact Hh.
  now apply rstrip_keep.
Qed.

Lemma strip_ext_in p q s :
  (forall c, In c s -> p c = q c) -> strip p s = strip q s.
Proof.
  assert (L : forall t, (forall c, In c t -> p c = q c) ->
                        lstrip p t = lstrip q t).
  { induction t as [|c t IH]; simpl; intros H; [reflexivity|].
    rewrite <- (H c) by now left.
    destruct (p c); [|reflexivity]. apply IH. intros; apply H. now right. }
  intros H. unfold strip, rstrip. rewrite (L s H).
  f_equal. apply L. intros c Hc. apply H.
  apply in_rev in Hc. destruct (lstrip_suffix q s) as [a Ha].
  rewrite Ha. apply in_or_app. now right.
Qed.

Lemma forallb_infix {A} (f : A -> bool) a s b :
  forallb f (a ++ s ++ b) = true -> forallb f s = true.
Proof.
  rewrite !forallb_app. intros [_ [H _]%andb_prop]%andb_prop. exact H.
Qed.

Lemma forallb_strip f p s : forallb f s = true -> forallb f (strip p s) = true.
Proof.
  intros H. destruct (strip_infix p s) as (a & b & E).
  rewrite E in H. now apply forallb_infix in H.
Qed.

Lemma no_double_us_cons2 c c' t :
  no_double_us (c :: c' :: t)
  = negb (is_us c && is_us c') && no_double_us (c' :: t).
Proof. reflexivity. Qed.

Lemma no_double_us_tail c t : no_double_us (c :: t) = true -> no_double_us t = true.
Proof.
  simpl. destruct t as [|c' t]; [reflexivity|].
  now intros [_ H]%andb_prop.
Qed.

Lemma no_double_us_app a b :
  no_double_us (a ++ b) = true ->
  no_double_us a = true /\ no_double_us b = true.
Proof.
  induction a as [|c a IH]; intros H.
  - now split.
  - destruct (IH (no_double_us_tail _ _ H)) as [Ha Hb]. split; [|exact Hb].
    destruct a as [|c' a]; [reflexivity|].
    change ((c :: c' :: a) ++ b) with (c :: c' :: a ++ b) in H.
    rewrite no_double_us_cons2 in H |- *.
    apply andb_prop in H as [H _]. now rewrite H, Ha.
Qed.

Lemma no_double_us_strip p s :
  no_double_us s = true -> no_double_us (strip p s) = true.
Proof.
  intros H. destruct (strip_infix p s) as (a & b & E). rewrite E in H.
  apply no_double_us_app in H as [_ H]. now apply no_double_us_app in H as [H _].
Qed.

(** ** The two substitutions of [normalize_ident] *)

Lemma cps_us : cps "_" = [95].
Proof. reflexivity. Qed.

Lemma sub_non_ident_class b s :
  forallb ident_class (re_sub_runs non_ident_class [95] b s) = true.
Proof.
  revert b. induction s as [|c t IH]; intros b; simpl; [reflexivity|].
  unfold non_ident_class at 1. destruct (ident_class c) eqn:E; simpl.
  - now rewrite E, IH.
  - destruct b; simpl; now rewrite ?IH.
Qed.

Lemma sub_non_ident_id b s :
  forallb ident_class s = true -> re_sub_runs non_ident_class [95] b s = s.
Proof.
  revert b. induction s as [|c t IH]; intros b; simpl; [reflexivity|].
  intros [Hc Ht]%andb_prop. unfold non_ident_class at 1. rewrite Hc. simpl.
  now rewrite IH.
Qed.

Lemma sub_us_ident b s :
  forallb ident_class s = true ->
  forallb ident_class (re_sub_runs is_us [95] b s) = true.
Proof.
  revert b. induction s as [|c t IH]; intros b; simpl; [reflexivity|].
  intros [Hc Ht]%andb_prop. destruct (is_us c) eqn:E.
  - destruct b; simpl; now rewrite IH.
  - simpl. now rewrite Hc, IH.
Qed.

Lemma sub_us_no_double b s :
  no_double_us (re_sub_runs is_us [95] b s) = true /\
  (b = true -> head_is is_us (re_sub_runs is_us [95] b s) = false).
Proof.
  revert b. induction s as [|c t IH]; intros b; simpl; [now split|].
  destruct (is_us c) eqn:E.
  - destruct (IH true) as [Hn Hh]. destruct b; [now split|].
    split; [|discriminate]. specialize (Hh eq_refl).
    change ([95] ++ ?x) with (95 :: x).
    destruct (re_sub_runs is_us [95] true t) as [|c' t']; [reflexivity|].
    rewrite no_double_us_cons2. simpl in Hh. rewrite Hh, Hn.
    now rewrite andb_false_r.
  - destruct (IH false) as [Hn _]. split; [|now simpl].
    destruct (re_sub_runs is_us [95] false t) as [|c' t']; [reflexivity|].
    rewrite no_double_us_cons2, E, Hn. reflexivity.
Qed.

Lemma sub_us_id b s :
  no_double_us s = true -> (b = true -> head_is is_us s = false) ->
  re_sub_runs is_us [95] b s = s.
Proof.
  revert b. induction s as [|c t IH]; intros b Hn Hb; simpl; [reflexivity|].
  destruct (is_us c) eqn:E.
  - destruct b; [specialize (Hb eq_refl); simpl in Hb; congruence|].
    apply is_us_eq in E. subst c. simpl. f_equal.
    apply IH; [now apply no_double_us_tail in Hn|]. intros _.
    destruct t as [|c' t]; [reflexivity|].
    rewrite no_double_us_cons2 in Hn. apply andb_prop in Hn as [Hn _].
    simpl in Hn |- *. now destruct (is_us c').
  - f_equal. apply IH; [now apply no_double_us_tail in Hn|discriminate].
Qed.

Lemma head_is_forallb (f p : N -> bool) s :
  forallb f s = true -> (forall c, f c = true -> p c = false) ->
  head_is p s = false.
Proof.
  destruct s as [|c t]; simpl; [reflexivity|].
  intros [Hc _]%andb_prop H. now apply H.
Qed.

Lemma forallb_rev {A} (f : A -> bool) s :
  forallb f s = true -> forallb f (rev s) = true.
Proof.
  rewrite !forallb_forall. intros H c Hc. apply H. now apply in_rev.
Qed.

Lemma last_is_forallb (f p : N -> bool) s :
  forallb f s = true -> (forall c, f c = true -> p c = false) ->
  last_is p s = false.
Proof.
  intros H. unfold last_is. apply head_is_forallb. now apply forallb_rev.
Qed.

Lemma last_is_cons p c s : s <> [] -> last_is p (c :: s) = last_is p s.
Proof.
  unfold last_is. simpl. intros H.
  destruct (rev s) as [|x r] eqn:E; [|reflexivity].
  apply (f_equal (@rev N)) in E. rewrite rev_involutive in E. now subst.
Qed.

(** A run of the class between two texts that do not touch it is replaced
    by one copy of the replacement. *)
Lemma re_sub_runs_skip cls repl run y :
  forallb cls run = true -> head_is cls y = false ->
  re_sub_runs cls repl true (run ++ y) = re_sub_runs cls repl false y.
Proof.
  intros Hr Hy. induction run as [|c run IH]; simpl.
  - destruct y as [|d y]; [reflexivity|]. simpl in Hy |- *. now rewrite Hy.
  - simpl in Hr. apply andb_prop in Hr as [Hc Hr]. rewrite Hc. now apply IH.
Qed.

Lemma re_sub_runs_app cls repl b x y :
  last_is cls x = false ->
  re_sub_runs cls repl b (x ++ y)
  = re_sub_runs cls repl b x
    ++ re_sub_runs cls repl (match x with [] => b | _ => false end) y.
Proof.
  revert b. induction x as [|c x IH]; intros b Hl; simpl; [reflexivity|].
  destruct x as [|c' x].
  - unfold last_is in Hl. simpl in Hl |- *. rewrite Hl. reflexivity.
  - rewrite last_is_cons in Hl by discriminate.
    destruct (cls c).
    + rewrite (IH true Hl). destruct b; [reflexivity|].
      now rewrite <- app_assoc.
    + now rewrite (IH false Hl).
Qed.

Lemma re_sub_class_plus_run cls repl a run b :
  run <> [] -> forallb cls run = true ->
  last_is cls a = false -> head_is cls b = false ->
  re_sub_class_plus cls repl (a ++ run ++ b)
  = re_sub_class_plus cls repl a ++ repl ++ re_sub_class_plus cls repl b.
Proof.
  intros Hne Hr Ha Hb. unfold re_sub_class_plus.
  rewrite re_sub_runs_app by exact Ha. f_equal.
  assert (E : re_sub_runs cls repl false (run ++ b)
              = repl ++ re_sub_runs cls repl false b).
  { destruct run as [|c run]; [congruence|]. simpl in Hr |- *.
    apply andb_prop in Hr as [Hc Hr]. rewrite Hc. f_equal.
    now apply re_sub_runs_skip. }
  destruct a; exact E.
Qed.

(** ** normalize_ident *)

Lemma ascii_db_conformant : ascii_conformant ascii_db.
Proof. repeat split. Qed.

Lemma normalize_ident_eq U name :
  ascii_conformant U ->
  normalize_ident U name
  = let s := strip is_us
               (re_sub_class_plus is_us (cps "_")
                  (re_sub_class_plus non_ident_class (cps "_")
                     (py_lower U (strip (py_isspace U) name)))) in
    Ok match s with
       | [] => cps "col"
       | c :: _ => if is_09 c then cps "c_" ++ s else s
       end.
Proof.
  intros (_ & _ & Hd & _). unfold normalize_ident. cbv zeta.
  set (s := strip is_us _).
  assert (Hs : forallb ident_class s = true).
  { apply forallb_strip, sub_us_ident. rewrite cps_us.
    apply sub_non_ident_class. }
  destruct s as [|c t]; simpl.
  - now rewrite Hd.
  - simpl in Hs. apply andb_prop in Hs as [Hc _].
    now rewrite Hd by now apply ident_class_ascii.
Qed.

Lemma normalize_ident_ascii U name :
  ascii_conformant U -> forallb is_ascii name = true ->
  normalize_ident U name = normalize_ident ascii_db name.
Proof.
  intros HU Hn. rewrite (normalize_ident_eq U) by exact HU.
  rewrite (normalize_ident_eq ascii_db) by exact ascii_db_conformant.
  destruct HU as (Hl & Hs & _ & _).
  assert (E : py_lower U (strip (py_isspace U) name)
              = py_lower ascii_db (strip (py_isspace ascii_db) name)).
  { simpl. rewrite (strip_ext_in (py_isspace U) ascii_isspace).
    - apply Hl. now apply forallb_strip.
    - intros c Hc. apply Hs. rewrite forallb_forall in Hn. now apply Hn. }
  now rewrite E.
Qed.

Lemma normalize_ident_normal_form U name :
  ascii_conformant U ->
  exists s, normalize_ident U name = Ok s /\ normal_form s = true.
Proof.
  intros HU. rewrite normalize_ident_eq by exact HU. cbv zeta.
  set (s := strip is_us _).
  assert (Hs : forallb ident_class s = true).
  { apply forallb_strip, sub_us_ident. rewrite cps_us.
    apply sub_non_ident_class. }
  assert (Hn : no_double_us s = true).
  { apply no_double_us_strip. rewrite cps_us. apply sub_us_no_double. }
  pose proof (strip_head is_us _ : head_is is_us s = false) as Hh.
  pose proof (strip_last is_us _ : last_is is_us s = false) as Hl.
  clearbody s. eexists. split; [reflexivity|].
  destruct s as [|c t]; [reflexivity|].
  simpl in Hh. pose proof Hs as Hs'. simpl in Hs'.
  apply andb_prop in Hs' as [Hc Ht].
  unfold normal_form. destruct (is_09 c) eqn:E9.
  - change (cps "c_" ++ c :: t) with (99 :: 95 :: c :: t).
    rewrite !last_is_cons by discriminate. rewrite Hl.
    rewrite !no_double_us_cons2, Hn, Hh.
    change (forallb ident_class (99 :: 95 :: c :: t))
      with (forallb ident_class (c :: t)).
    now rewrite Hs.
  - rewrite Hs, Hn, Hl.
    destruct (ident_class_cases c Hc) as [Ha | [H9 | ->]];
      [simpl; now rewrite Ha | congruence | discriminate].
Qed.

Lemma normalize_ident_fixed U s :
  ascii_conformant U -> normal_form s = true -> normalize_ident U s = Ok s.
Proof.
  intros HU. unfold normal_form.
  intros [[[Hh Hs]%andb_prop Hn]%andb_prop Hl%negb_true_iff]%andb_prop.
  rewrite normalize_ident_ascii by (try apply forallb_ident_ascii; assumption).
  rewrite normalize_ident_eq by exact ascii_db_conformant. simpl py_lower.
  simpl py_isspace. cbv zeta.
  assert (Hhu : head_is is_us s = false).
  { destruct s as [|c t]; [reflexivity|]. simpl in Hh |- *.
    now apply is_az_not_us. }
  rewrite (strip_keep ascii_isspace).
  2: { eapply head_is_forallb; [exact Hs|]. apply ident_class_not_space. }
  2: { eapply last_is_forallb; [exact Hs|]. apply ident_class_not_space. }
  rewrite map_lower_ident by exact Hs. rewrite cps_us.
  unfold re_sub_class_plus. rewrite sub_non_ident_id by exact Hs.
  rewrite sub_us_id by (try discriminate; assumption).
  rewrite (strip_keep is_us) by assumption.
  destruct s as [|c t]; [discriminate|]. simpl in Hh.
  now rewrite is_az_not_09.
Qed.

Lemma normal_form_matches s :
  normal_form s = true ->
  s <> [] /\ matches_identifier s = true /\ List.map ascii_lower_char s = s /\
  no_double_us s = true /\ head_is is_us s = false /\ last_is is_us s = false.
Proof.
  unfold normal_form.
  intros [[[Hh Hs]%andb_prop Hn]%andb_prop Hl%negb_true_iff]%andb_prop.
  destruct s as [|c t]; [discriminate|]. simpl in Hh.
  repeat split; try assumption.
  - discriminate.
  - simpl in Hs |- *. apply andb_prop in Hs as [_ Ht]. now rewrite Hh, Ht.
  - now apply map_lower_ident.
  - simpl. now apply is_az_not_us.
Qed.

(** C4. On every input string [normalize_ident] returns without raising, and
    what it returns is not empty, is a full match of [[a-z_][a-z0-9_]*], is in
    lower case, has no two underscores in a row and no underscore at either
    end.  A run of characters outside [[a-z0-9_]] becomes one underscore; an
    empty cleaned name becomes [col] and one that starts with a digit gets the
    prefix [c_].  In particular ["2nd Floor!!"] becomes [c_2nd_floor]. *)
Theorem normalize_ident_valid (U : unicode_db) (HU : ascii_conformant U) :
  (forall name, exists s,
      normalize_ident U name = Ok s /\
      s <> [] /\ matches_identifier s = true /\
      List.map ascii_lower_char s = s /\ no_double_us s = true /\
      head_is is_us s = false /\ last_is is_us s = false) /\
  (forall a run b,
      run <> [] -> forallb non_ident_class run = true ->
      last_is non_ident_class a = false -> head_is non_ident_class b = false ->
      re_sub_class_plus non_ident_class (cps "_") (a ++ run ++ b)
      = re_sub_class_plus non_ident_class (cps "_") a ++ cps "_"
        ++ re_sub_class_plus non_ident_class (cps "_") b) /\
  (forall name,
      let s := strip is_us
                 (re_sub_class_plus is_us (cps "_")
                    (re_sub_class_plus non_ident_class (cps "_")
                       (py_lower U (strip (py_isspace U) name)))) in
      normalize_ident U name
      = Ok match s with
           | [] => cps "col"
           | c :: _ => if is_09 c then cps "c_" ++ s else s
           end) /\
  normalize_ident U [] = Ok (cps "col") /\
  normalize_ident U (cps "?!.. ") = Ok (cps "col") /\
  normalize_ident U (cps "2nd Floor!!") = Ok (cps "c_2nd_floor").
Proof.
  split; [|split; [|split; [|repeat split]]].
  - intros name.
    destruct (normalize_ident_normal_form U name HU) as (s & E & Hs).
    exists s. split; [exact E|]. now apply normal_form_matches.
  - intros a run b. apply re_sub_class_plus_run.
  - intros name. now apply normalize_ident_eq.
  - now rewrite normalize_ident_ascii.
  - now rewrite normalize_ident_ascii.
  - now rewrite normalize_ident_ascii.
Qed.

Lemma normalize_ident_valid_witness :
  ascii_conformant ascii_db /\
  (exists s, normalize_ident ascii_db (cps "Precio (EUR/m2)") = Ok s /\
             matches_identifier s = true) /\
  re_sub_class_plus non_ident_class (cps "_") (cps "ab" ++ cps "!!" ++ cps "c")
  = cps "ab_c" /\
  normalize_ident ascii_db (cps "2nd Floor!!") = Ok (cps "c_2nd_floor").
Proof.
  pose proof (normalize_ident_valid ascii_db ascii_db_conformant)
    as (Hv & Hr & _ & _ & _ & He).
  split; [exact ascii_db_conformant|]. split; [|split; [|exact He]].
  - destruct (Hv (cps "Precio (EUR/m2)")) as (s & E & _ & Hm & _).
    exists s. now split.
  - rewrite (Hr (cps "ab") (cps "!!") (cps "c"));
      [reflexivity | discriminate | reflexivity | reflexivity | reflexivity].
Defined.

(** C7. [normalize_ident] is idempotent: normalising what it returned gives
    the same identifier again. *)
Theorem normalize_ident_idempotent (U : unicode_db) (HU : ascii_conformant U)
    (name : pystr) :
  bind (normalize_ident U name) (normalize_ident U) = normalize_ident U name /\
  exists s, normalize_ident U name = Ok s /\ normalize_ident U s = Ok s.
Proof.
  destruct (normalize_ident_normal_form U name HU) as (s & E & Hs).
  pose proof (normalize_ident_fixed U s HU Hs) as F.
  split; [|now exists s]. rewrite E. exact F.
Qed.

Lemma normalize_ident_idempotent_witness :
  ascii_conformant ascii_db /\
  bind (normalize_ident ascii_db (cps " 2nd  Floor!!"))
    (normalize_ident ascii_db)
  = normalize_ident ascii_db (cps " 2nd  Floor!!").
Proof.
  split; [exact ascii_db_conformant|].
  exact (proj1 (normalize_ident_idempotent ascii_db ascii_db_conformant
                  (cps " 2nd  Floor!!"))).
Defined.

(** ** dedupe_idents *)

Lemma str_eqb_eq a b : str_eqb a b = true <-> a = b.
Proof. unfold str_eqb. apply bool_decide_eq_true. Qed.

Lemma str_eqb_refl a : str_eqb a a = true.
Proof. now apply str_eqb_eq. Qed.

Lemma str_eqb_neq a b : a <> b -> str_eqb a b = false.
Proof. unfold str_eqb. apply bool_decide_eq_false. Qed.

Lemma count_str_app x a b : count_str x (a ++ b) = count_str x a + count_str x b.
Proof. induction a as [|y a IH]; simpl; [reflexivity|]. rewrite IH. lia. Qed.

Lemma seen_counts_step seen done x n :
  seen_counts seen done -> n = count_str x done + 1 ->
  seen_counts (<[x := n]> seen) (done ++ [x]).
Proof.
  intros H -> y. rewrite count_str_app. simpl.
  destruct (decide (x = y)) as [->|Hne].
  - rewrite lookup_insert_eq, str_eqb_refl.
    destruct (N.eqb_spec (count_str y done + (1 + 0)) 0); [lia|].
    f_equal; lia.
  - rewrite lookup_insert_ne by exact Hne. rewrite str_eqb_neq by exact Hne.
    rewrite N.add_0_r. apply H.
Qed.

Lemma dedupe_loop_spec idents : forall seen out done,
  seen_counts seen done ->
  exists res,
    dedupe_loop idents seen out = Ok (out ++ res) /\
    length res = length idents /\
    forall (i : nat) x, idents !! i = Some x ->
      res !! i = Some (deduped_name x (count_str x (done ++ take i idents))).
Proof.
  induction idents as [|x rest IH]; intros seen out done Hinv.
  - exists []. rewrite app_nil_r. split; [reflexivity|split; [reflexivity|]].
    intros i x Hx. destruct i; discriminate.
  - cbn [dedupe_loop]. unfold dict_contains, dict_get. rewrite (Hinv x).
    destruct (N.eqb_spec (count_str x done) 0) as [E0|E0]; cbn [negb bind].
    + destruct (IH (<[x := 1]> seen) (out ++ [x]) (done ++ [x]))
        as (res & E & Hl & Hi).
      { apply seen_counts_step; [exact Hinv|lia]. }
      exists (x :: res). rewrite E, <- app_assoc.
      split; [reflexivity|split; [cbn [length]; now rewrite Hl|]].
      intros [|i] y Hy.
      * change (Some x = Some y) in Hy. injection Hy as <-.
        change (Some x = Some (deduped_name x (count_str x (done ++ [])))).
        rewrite app_nil_r. unfold deduped_name. now rewrite E0.
      * change (rest !! i = Some y) in Hy.
        change (res !! i
                = Some (deduped_name y (count_str y (done ++ x :: take i rest)))).
        rewrite (Hi i y Hy), <- app_assoc. reflexivity.
    + rewrite lookup_insert_eq. cbn [bind].
      destruct (IH (<[x := count_str x done + 1]> seen)
                  (out ++ [x ++ cps "_" ++ py_str_int (count_str x done + 1)])
                  (done ++ [x])) as (res & E & Hl & Hi).
      { now apply seen_counts_step. }
      exists ((x ++ cps "_" ++ py_str_int (count_str x done + 1)) :: res).
      rewrite E, <- app_assoc.
      split; [reflexivity|split; [cbn [length]; now rewrite Hl|]].
      intros [|i] y Hy.
      * change (Some x = Some y) in Hy. injection Hy as <-.
        change (Some (x ++ cps "_" ++ py_str_int (count_str x done + 1))
                = Some (deduped_name x (count_str x (done ++ [])))).
        rewrite app_nil_r. unfold deduped_name.
        now destruct (N.eqb_spec (count_str x done) 0).
      * change (rest !! i = Some y) in Hy.
        change (res !! i
                = Some (deduped_name y (count_str y (done ++ x :: take i rest)))).
        rewrite (Hi i y Hy), <- app_assoc. reflexivity.
Qed.

(** C1 as stated does not hold: the second occurrence of a name gets the
    suffix [_2], not [_1]. *)
Lemma dedupe_idents_suffix_counterexample :
  ~ (forall idents (i : nat) x,
       idents !! i = Some x ->
       exists out,
         dedupe_idents idents = Ok out /\
         out !! i = Some (deduped_name_spec x (count_str x (take i idents)))) /\
  dedupe_idents [cps "name"; cps "name"] <> Ok [cps "name"; cps "name_1"].
Proof.
  split.
  - intros H.
    destruct (H [cps "name"; cps "name"] 1%nat (cps "name") eq_refl)
      as (out & E & Hout).
    vm_compute in E. injection E as <-. vm_compute in Hout. discriminate.
  - vm_compute. discriminate.
Qed.

(** C1, amended.  [dedupe_idents] returns one name for each name it is given:
    the first occurrence of a name unchanged, and a later occurrence with the
    suffix [_n], where [n] is the number of that occurrence, one more than the
    count of the occurrences before it (the second occurrence gets [_2]).
    ["Name"] and ["name "] both normalise to [name], and deduplication then
    gives [name] and [name_2]. *)
Theorem dedupe_idents_suffix (U : unicode_db) (HU : ascii_conformant U) :
  (forall idents, exists out,
      dedupe_idents idents = Ok out /\
      length out = length idents /\
      forall (i : nat) x, idents !! i = Some x ->
        out !! i = Some (deduped_name x (count_str x (take i idents)))) /\
  (forall x, deduped_name x 0 = x) /\
  (forall x k, 0 < k -> deduped_name x k = x ++ cps "_" ++ py_str_int (k + 1)) /\
  normalize_ident U (cps "Name") = Ok (cps "name") /\
  normalize_ident U (cps "name ") = Ok (cps "name") /\
  dedupe_idents [cps "name"; cps "name"] = Ok [cps "name"; cps "name_2"].
Proof.
  split; [|split; [|split; [|repeat split]]].
  - intros idents. unfold dedupe_idents.
    destruct (dedupe_loop_spec idents ∅ [] []) as (res & E & Hl & Hi).
    { intros y. now rewrite lookup_empty. }
    exists res. split; [exact E|]. split; [exact Hl|exact Hi].
  - reflexivity.
  - intros x k Hk. unfold deduped_name.
    destruct (N.eqb_spec k 0); [lia|reflexivity].
  - now rewrite normalize_ident_ascii.
  - now rewrite normalize_ident_ascii.
Qed.

Lemma dedupe_idents_suffix_witness :
  ascii_conformant ascii_db /\
  (exists out,
      dedupe_idents [cps "id"; cps "name"; cps "id"; cps "id"] = Ok out /\
      out !! 3%nat = Some (cps "id_3")) /\
  normalize_ident ascii_db (cps "name ") = Ok (cps "name").
Proof.
  pose proof (dedupe_idents_suffix ascii_db ascii_db_conformant)
    as (Hd & _ & _ & _ & Hn & _).
  split; [exact ascii_db_conformant|]. split; [|exact Hn].
  destruct (Hd [cps "id"; cps "name"; cps "id"; cps "id"])
    as (out & E & _ & Hi).
  exists out. split; [exact E|]. exact (Hi 3%nat (cps "id") eq_refl).
Defined.

(** C2 fails on the program.  Three distinct column names, two of which
    normalise to the same identifier while the third is that identifier with
    the suffix [_2], come out of normalisation and deduplication with the same
    name twice. *)
Theorem dedupe_idents_collision (U : unicode_db) (HU : ascii_conformant U) :
  NoDup [cps "a b"; cps "a-b"; cps "a_b_2"] /\
  bind (map_result (normalize_ident U) [cps "a b"; cps "a-b"; cps "a_b_2"])
    dedupe_idents
  = Ok [cps "a_b"; cps "a_b_2"; cps "a_b_2"] /\
  ~ NoDup [cps "a_b"; cps "a_b_2"; cps "a_b_2"].
Proof.
  split; [|split].
  - apply (bool_decide_unpack _). vm_compute. exact I.
  - cbn [map_result].
    rewrite !(normalize_ident_ascii U) by (try reflexivity; exact HU).
    vm_compute. reflexivity.
  - intros H. apply (bool_decide_pack _) in H. vm_compute in H. exact H.
Qed.

Lemma dedupe_idents_collision_witness :
  ascii_conformant ascii_db /\
  bind (map_result (normalize_ident ascii_db)
          [cps "a b"; cps "a-b"; cps "a_b_2"])
    dedupe_idents
  = Ok [cps "a_b"; cps "a_b_2"; cps "a_b_2"].
Proof.
  split; [exact ascii_db_conformant|].
  exact (proj1 (proj2 (dedupe_idents_collision ascii_db ascii_db_conformant))).
Defined.

(** ** map_mysql_to_pg *)

Lemma span_spec d s a b :
  span d s = (a, b) ->
  s = a ++ b /\ forallb d a = true /\ head_is d b = false.
Proof.
  revert a b. induction s as [|c t IH]; intros a b; simpl.
  - intros [= <- <-]. now repeat split.
  - destruct (d c) eqn:E.
    + destruct (span d t) as [a' b'] eqn:Es. intros [= <- <-].
      destruct (IH a' b' eq_refl) as (-> & Ha & Hb).
      repeat split; [|exact Hb]. simpl. now rewrite E, Ha.
    + intros [= <- <-]. repeat split. simpl. exact E.
Qed.

Lemma digits1_spec d s g r :
  digits1 d s = Some (g, r) ->
  is_digits d g /\ s = g ++ r /\ head_is d r = false.
Proof.
  unfold digits1. destruct (span d s) as [a b] eqn:E.
  apply span_spec in E as (-> & Ha & Hb).
  destruct a as [|c a]; [discriminate|]. intros [= <- <-].
  repeat split; [discriminate|exact Ha|exact Hb].
Qed.

Lemma re_search_some {A} (m : pystr -> option A) s r :
  re_search m s = Some r -> exists a t, s = a ++ t /\ m t = Some r.
Proof.
  induction s as [|c s IH]; simpl.
  - destruct (m []) eqn:E; [|discriminate]. intros [= <-]. now exists [], [].
  - destruct (m (c :: s)) eqn:E.
    + intros [= <-]. now exists [], (c :: s).
    + intros H. destruct (IH H) as (a & t & -> & Ht). now exists (c :: a), t.
Qed.

Lemma match_precision_scale_spec d s g1 g2 :
  match_precision_scale d s = Some (g1, g2) ->
  is_digits d g1 /\ is_digits d g2 /\
  exists r, s = cps "(" ++ g1 ++ cps "," ++ g2 ++ cps ")" ++ r.
Proof.
  unfold match_precision_scale, eat.
  destruct s as [|c s]; [discriminate|]. cbn [mbind option_bind].
  destruct (N.eqb_spec c 40) as [->|]; [|discriminate]. cbn [mbind option_bind].
  destruct (digits1 d s) as [[a r1]|] eqn:E1; [|discriminate].
  apply digits1_spec in E1 as (H1 & -> & _). cbn [mbind option_bind].
  destruct r1 as [|c r1]; [discriminate|].
  destruct (N.eqb_spec c 44) as [->|]; [|discriminate]. cbn [mbind option_bind].
  destruct (digits1 d r1) as [[b r2]|] eqn:E2; [|discriminate].
  apply digits1_spec in E2 as (H2 & -> & _). cbn [mbind option_bind].
  destruct r2 as [|c r2]; [discriminate|].
  destruct (N.eqb_spec c 41) as [->|]; [|discriminate]. cbn [mbind option_bind].
  intros [= <- <-]. repeat split; try apply H1; try apply H2.
  exists r2. change (cps "(") with [40]. change (cps ",") with [44].
  change (cps ")") with [41]. reflexivity.
Qed.

Lemma match_length_spec d s g :
  match_length d s = Some g ->
  is_digits d g /\ exists r, s = cps "(" ++ g ++ cps ")" ++ r.
Proof.
  unfold match_length, eat.
  destruct s as [|c s]; [discriminate|]. cbn [mbind option_bind].
  destruct (N.eqb_spec c 40) as [->|]; [|discriminate]. cbn [mbind option_bind].
  destruct (digits1 d s) as [[a r1]|] eqn:E1; [|discriminate].
  apply digits1_spec in E1 as (H1 & -> & _). cbn [mbind option_bind].
  destruct r1 as [|c r1]; [discriminate|].
  destruct (N.eqb_spec c 41) as [->|]; [|discriminate]. cbn [mbind option_bind].
  intros [= <-]. split; [exact H1|].
  exists r1. change (cps "(") with [40]. change (cps ")") with [41].
  reflexivity.
Qed.

Ltac fixed_target :=
  left; unfold fixed_targets; cbn [In];
  repeat (first [left; reflexivity | right]).

Lemma map_mysql_to_pg_target U dt ct :
  target_type (re_digit U) (map_mysql_to_pg U dt ct).
Proof.
  unfold map_mysql_to_pg. cbv zeta.
  repeat lazymatch goal with
    | |- target_type _ (if ?b then _ else _) => destruct b
    | |- target_type _ (match re_search ?m ?s with Some _ => _ | None => _ end) =>
        let E := fresh "E" in destruct (re_search m s) as [?|] eqn:E
    end;
  try solve [fixed_target].
  - destruct p as [g1 g2].
    apply re_search_some in E as (a & t & _ & E).
    apply match_precision_scale_spec in E as (H1 & H2 & _).
    right; left. exists g1, g2. split; [exact H1|split; [exact H2|reflexivity]].
  - apply re_search_some in E as (a & t & _ & E).
    apply match_length_spec in E as (H1 & _).
    right; right. eexists. split; [exact H1|reflexivity].
Qed.

Lemma str_in_cons x a l : str_in x (a :: l) = str_eqb x a || str_in x l.
Proof. reflexivity. Qed.

Lemma map_mysql_to_pg_unrecognized U dt ct :
  str_in (py_lower U (or_empty dt)) recognized_types = false ->
  map_mysql_to_pg U dt ct = cps "text".
Proof.
  unfold recognized_types, map_mysql_to_pg. cbv zeta.
  set (d := py_lower U (or_empty dt)). intros H.
  repeat (rewrite str_in_cons in H; apply orb_false_elim in H as [? H]).
  rewrite !str_in_cons.
  repeat match goal with E : str_eqb d _ = false |- _ => rewrite E; clear E end.
  reflexivity.
Qed.

Lemma target_type_nonempty d t : target_type d t -> t <> [].
Proof.
  intros [H | [(p & s & _ & _ & ->) | (n & _ & ->)]]; try discriminate.
  unfold fixed_targets in H. cbn [In] in H.
  repeat destruct H as [<- | H]; try discriminate. destruct H.
Qed.

Lemma py_lower_ascii U s :
  ascii_conformant U ->
  forallb (fun c => is_ascii c && negb (is_AZ c)) s = true ->
  py_lower U s = s.
Proof.
  intros (Hl & _) H. rewrite Hl.
  - induction s as [|c t IH]; [reflexivity|]. simpl in H |- *.
    apply andb_prop in H as [Hc Ht]. rewrite IH by exact Ht. f_equal.
    unfold ascii_lower_char. apply andb_prop in Hc as [_ Hc].
    now destruct (is_AZ c).
  - rewrite forallb_forall in H |- *. intros c Hc.
    now destruct (andb_prop _ _ (H c Hc)).
Qed.

(** C6. [map_mysql_to_pg] is total: on every pair of arguments, [None]
    included, it returns a target type descriptor, a fixed name or
    [numeric(p,s)] or [varchar(n)], never an empty string; and when the
    lower-cased [data_type] is none of the type codes it tests for, it returns
    [text]. *)
Theorem map_mysql_to_pg_total (U : unicode_db) (HU : ascii_conformant U) :
  (forall dt ct, exists t,
      map_mysql_to_pg U dt ct = t /\ t <> [] /\ target_type (re_digit U) t) /\
  (forall dt ct,
      str_in (py_lower U (or_empty dt)) recognized_types = false ->
      map_mysql_to_pg U dt ct = cps "text") /\
  map_mysql_to_pg U (Some (cps "geometry")) (Some (cps "geometry")) = cps "text" /\
  map_mysql_to_pg U (Some (cps "enum")) (Some (cps "enum('a','b')")) = cps "text" /\
  map_mysql_to_pg U None None = cps "text".
Proof.
  split; [|split; [|repeat split]].
  - intros dt ct. eexists. split; [reflexivity|].
    pose proof (map_mysql_to_pg_target U dt ct) as H. split; [|exact H].
    now apply target_type_nonempty in H.
  - apply map_mysql_to_pg_unrecognized.
  - apply map_mysql_to_pg_unrecognized.
    now rewrite py_lower_ascii by (try reflexivity; exact HU).
  - apply map_mysql_to_pg_unrecognized.
    now rewrite py_lower_ascii by (try reflexivity; exact HU).
  - apply map_mysql_to_pg_unrecognized.
    now rewrite py_lower_ascii by (try reflexivity; exact HU).
Qed.

Lemma map_mysql_to_pg_total_witness :
  ascii_conformant ascii_db /\
  str_in (py_lower ascii_db (or_empty (Some (cps "YEAR")))) recognized_types
  = false /\
  map_mysql_to_pg ascii_db (Some (cps "YEAR")) (Some (cps "year(4)"))
  = cps "text".
Proof.
  pose proof (map_mysql_to_pg_total ascii_db ascii_db_conformant)
    as (_ & Hu & _).
  split; [exact ascii_db_conformant|]. split; [reflexivity|].
  apply Hu. reflexivity.
Defined.

(** ** The display width of a TINYINT *)

Lemma uint_cps_digits d : forallb is_09 (uint_cps d) = true.
Proof. induction d; simpl; auto. Qed.

Lemma uint_cps_nonempty d : d <> Decimal.Nil -> uint_cps d <> [].
Proof. destruct d; simpl; congruence. Qed.

Lemma uint_cps_one d : uint_cps d = [49] -> d = Decimal.D1 Decimal.Nil.
Proof.
  destruct d; simpl; try discriminate. intros [= H].
  destruct d; simpl in H; try discriminate. reflexivity.
Qed.

Lemma py_str_int_digits n : is_digits is_09 (py_str_int n).
Proof.
  split; [|apply uint_cps_digits]. unfold py_str_int.
  destruct n as [|p]; [discriminate|].
  apply uint_cps_nonempty, DecimalPos.Unsigned.to_uint_nonnil.
Qed.

Lemma py_str_int_one n : py_str_int n = [49] <-> n = 1.
Proof.
  split; [|now intros ->]. intros H. apply uint_cps_one in H.
  now apply DecimalN.Unsigned.to_uint_inj.
Qed.

Lemma forallb_impl {A} (f g : A -> bool) s :
  (forall c, f c = true -> g c = true) ->
  forallb f s = true -> forallb g s = true.
Proof. rewrite !forallb_forall. auto. Qed.

Lemma startswith_one_paren D F :
  is_digits is_09 D -> startswith [49; 41] (D ++ 41 :: F) = str_eqb D [49].
Proof.
  intros [Hne Hd]. destruct D as [|c D]; [congruence|].
  cbn [forallb] in Hd. apply andb_prop in Hd as [_ Hd].
  cbn [app startswith].
  destruct (N.eqb_spec 49 c) as [<-|Hc]; cbn [andb].
  - destruct D as [|c' D]; [reflexivity|].
    cbn [forallb] in Hd. apply andb_prop in Hd as [Hc' _].
    cbn [app startswith]. rewrite str_eqb_neq by discriminate.
    destruct (N.eqb_spec 41 c') as [<-|]; [discriminate Hc'|reflexivity].
  - symmetry. apply str_eqb_neq. congruence.
Qed.

Lemma str_contains_no_head c p hay :
  forallb (fun x => negb (x =? c)) hay = true ->
  str_contains (c :: p) hay = false.
Proof.
  induction hay as [|x hay IH]; simpl; [reflexivity|].
  intros [Hx Hh]%andb_prop. rewrite IH by exact Hh.
  rewrite N.eqb_sym. apply negb_true_iff in Hx. now rewrite Hx.
Qed.

Lemma str_contains_cons needle c hay :
  str_contains needle (c :: hay)
  = startswith needle (c :: hay) || str_contains needle hay.
Proof. reflexivity. Qed.

Lemma startswith_cons a p b s :
  startswith (a :: p) (b :: s) = (a =? b) && startswith p s.
Proof. reflexivity. Qed.

Lemma str_contains_tinyint R :
  forallb (fun c => negb (c =? 116)) R = true ->
  head_is (fun c => c =? 105) R = false ->
  str_contains (cps "tinyint(1)") (cps "tinyint" ++ R)
  = startswith (cps "(1)") R.
Proof.
  intros Ht Hi.
  change (cps "tinyint(1)") with [116; 105; 110; 121; 105; 110; 116; 40; 49; 41].
  change (cps "tinyint") with [116; 105; 110; 121; 105; 110; 116].
  change (cps "(1)") with [40; 49; 41].
  cbn [app]. rewrite !str_contains_cons, !startswith_cons.
  cbn [N.eqb Pos.eqb andb orb].
  rewrite str_contains_no_head by exact Ht.
  assert (E : startswith [105; 110; 121; 105; 110; 116; 40; 49; 41] R = false).
  { destruct R as [|c R]; [reflexivity|]. cbn [head_is] in Hi.
    rewrite startswith_cons, N.eqb_sym, Hi. reflexivity. }
  rewrite E. now rewrite !orb_false_r.
Qed.

Lemma map_mysql_to_pg_tinyint U ct :
  ascii_conformant U ->
  map_mysql_to_pg U (Some (cps "tinyint")) ct
  = if str_contains (cps "tinyint(1)") (py_lower U (or_empty ct))
    then cps "boolean" else cps "smallint".
Proof.
  intros HU. unfold map_mysql_to_pg. cbv zeta. cbn [or_empty].
  rewrite (py_lower_ascii U (cps "tinyint")) by (try reflexivity; exact HU).
  reflexivity.
Qed.

Lemma is_09_plain c : is_09 c = true -> is_ascii c && negb (is_AZ c) = true.
Proof. class_cases. Qed.

Lemma is_09_not_t c : is_09 c = true -> negb (c =? 116) = true.
Proof. class_cases. Qed.

Lemma tinyint_column_type_contains width unsigned zerofill :
  forallb (fun c => is_ascii c && negb (is_AZ c))
    (tinyint_column_type width unsigned zerofill) = true /\
  str_contains (cps "tinyint(1)") (tinyint_column_type width unsigned zerofill)
  = match width with
    | Some w => w =? 1
    | None => false
    end.
Proof.
  unfold tinyint_column_type. destruct width as [w|].
  - destruct (py_str_int_digits w) as [Hne Hd]. split.
    + rewrite !forallb_app. rewrite (forallb_impl is_09 _ _ is_09_plain Hd).
      now destruct unsigned, zerofill.
    + rewrite str_contains_tinyint.
      * change (cps "(1)") with [40; 49; 41]. change (cps "(") with [40].
        change (cps ")") with [41].
        cbn [app]. rewrite startswith_cons. cbn [N.eqb Pos.eqb andb].
        rewrite <- app_assoc. cbn [app].
        rewrite startswith_one_paren by now split.
        destruct (N.eqb_spec w 1) as [->|Hw]; [reflexivity|].
        apply str_eqb_neq. now rewrite py_str_int_one.
      * rewrite !forallb_app.
        rewrite (forallb_impl is_09 _ _ is_09_not_t Hd).
        now destruct unsigned, zerofill.
      * reflexivity.
  - now destruct unsigned, zerofill.
Qed.

(** C5. For the type code [tinyint], [map_mysql_to_pg] returns [boolean] or
    [smallint], and [boolean] exactly when the lower-cased full type string
    contains [tinyint(1)].  On every type string MySQL writes for a TINYINT
    column, whatever its attributes, this is exactly when the declared display
    width is 1; with another width, or none, the result is [smallint].  In
    particular [tinyint(1)] gives [boolean] and [tinyint(4)] gives
    [smallint]. *)
Theorem map_mysql_to_pg_tinyint_width (U : unicode_db)
    (HU : ascii_conformant U) :
  (forall ct,
      map_mysql_to_pg U (Some (cps "tinyint")) ct
      = if str_contains (cps "tinyint(1)") (py_lower U (or_empty ct))
        then cps "boolean" else cps "smallint") /\
  (forall width unsigned zerofill,
      map_mysql_to_pg U (Some (cps "tinyint"))
        (Some (tinyint_column_type width unsigned zerofill))
      = match width with
        | Some w => if w =? 1 then cps "boolean" else cps "smallint"
        | None => cps "smallint"
        end) /\
  map_mysql_to_pg U (Some (cps "tinyint")) (Some (cps "tinyint(1)"))
  = cps "boolean" /\
  map_mysql_to_pg U (Some (cps "tinyint")) (Some (cps "tinyint(4)"))
  = cps "smallint" /\
  map_mysql_to_pg U (Some (cps "TINYINT")) (Some (cps "TINYINT(1) UNSIGNED"))
  = cps "boolean".
Proof.
  assert (W : forall width unsigned zerofill,
             map_mysql_to_pg U (Some (cps "tinyint"))
               (Some (tinyint_column_type width unsigned zerofill))
             = match width with
               | Some w => if w =? 1 then cps "boolean" else cps "smallint"
               | None => cps "smallint"
               end).
  { intros width unsigned zerofill.
    rewrite map_mysql_to_pg_tinyint by exact HU. cbn [or_empty].
    destruct (tinyint_column_type_contains width unsigned zerofill) as [Hp Hc].
    rewrite py_lower_ascii by assumption. rewrite Hc.
    now destruct width. }
  split; [|split; [exact W|repeat split]].
  - intros ct. now apply map_mysql_to_pg_tinyint.
  - exact (W (Some 1) false false).
  - exact (W (Some 4) false false).
  - destruct HU as (Hl & _). unfold map_mysql_to_pg. cbn [or_empty].
    rewrite !Hl by reflexivity. reflexivity.
Qed.

Lemma map_mysql_to_pg_tinyint_width_witness :
  ascii_conformant ascii_db /\
  map_mysql_to_pg ascii_db (Some (cps "tinyint"))
    (Some (tinyint_column_type (Some 3) true false))
  = cps "smallint" /\
  map_mysql_to_pg ascii_db (Some (cps "tinyint")) (Some (cps "tinyint(1)"))
  = cps "boolean".
Proof.
  pose proof (map_mysql_to_pg_tinyint_width ascii_db ascii_db_conformant)
    as (_ & Hw & Hb & _).
  split; [exact ascii_db_conformant|]. split; [|exact Hb].
  exact (Hw (Some 3) true false).
Defined.

(** ** maybe_truncate *)

Lemma truncate_stmt_eq schema_norm table_norm :
  truncate_stmt schema_norm table_norm
  = Ok (Composed [SQL (cps "TRUNCATE TABLE "); Identifier schema_norm;
                  SQL (cps "."); Identifier table_norm; SQL (cps ";")]).
Proof. reflexivity. Qed.

(** C8. [maybe_truncate] issues a TRUNCATE of the target table and then a
    commit when, and only when, [mode] is [replace]; with any other mode,
    [append] or a string it does not know, it issues nothing and leaves the
    connection as it was. *)
Theorem maybe_truncate_effect {Row : Type} (pg : pg_conn Row)
    (schema_norm table_norm mode : pystr) :
  (mode = cps "replace" ->
   maybe_truncate pg schema_norm table_norm mode
   = Ok (pg ++ [PgExecute
                  (Composed [SQL (cps "TRUNCATE TABLE ");
                             Identifier schema_norm; SQL (cps ".");
                             Identifier table_norm; SQL (cps ";")]);
                PgCommit])) /\
  (mode <> cps "replace" ->
   maybe_truncate pg schema_norm table_norm mode = Ok pg) /\
  (maybe_truncate pg schema_norm table_norm mode = Ok pg <->
   mode <> cps "replace") /\
  maybe_truncate pg schema_norm table_norm (cps "append") = Ok pg /\
  maybe_truncate pg schema_norm table_norm (cps "REPLACE") = Ok pg /\
  maybe_truncate pg schema_norm table_norm (cps "refresh") = Ok pg.
Proof.
  assert (R : mode = cps "replace" ->
              maybe_truncate pg schema_norm table_norm mode
              = Ok (pg ++ [PgExecute
                             (Composed [SQL (cps "TRUNCATE TABLE ");
                                        Identifier schema_norm; SQL (cps ".");
                                        Identifier table_norm; SQL (cps ";")]);
                           PgCommit])).
  { intros ->. unfold maybe_truncate. rewrite str_eqb_refl, truncate_stmt_eq.
    cbn [bind]. unfold pg_commit, pg_execute. now rewrite <- app_assoc. }
  assert (A : mode <> cps "replace" ->
              maybe_truncate pg schema_norm table_norm mode = Ok pg).
  { intros H. unfold maybe_truncate. now rewrite str_eqb_neq. }
  split; [exact R|]. split; [exact A|]. split; [|repeat split].
  - split; [|exact A]. intros E Hm. rewrite (R Hm) in E.
    injection E as E. apply (f_equal (@length _)) in E.
    rewrite length_app in E. simpl in E. lia.
Qed.

Lemma maybe_truncate_effect_witness :
  cps "replace" = cps "replace" /\
  cps "Append" <> cps "replace" /\
  maybe_truncate (Row := nat) [PgCommit] (cps "prd_ahp") (cps "destinos")
    (cps "replace")
  = Ok [PgCommit;
        PgExecute (Composed [SQL (cps "TRUNCATE TABLE ");
                             Identifier (cps "prd_ahp"); SQL (cps ".");
                             Identifier (cps "destinos"); SQL (cps ";")]);
        PgCommit] /\
  maybe_truncate (Row := nat) [PgCommit] (cps "prd_ahp") (cps "destinos")
    (cps "Append")
  = Ok [PgCommit].
Proof.
  split; [reflexivity|]. split; [discriminate|]. split.
  - exact (proj1 (maybe_truncate_effect (Row := nat) [PgCommit]
                    (cps "prd_ahp") (cps "destinos") (cps "replace")) eq_refl).
  - apply (proj1 (proj2 (maybe_truncate_effect (Row := nat) [PgCommit]
                           (cps "prd_ahp") (cps "destinos") (cps "Append")))).
    discriminate.
Defined.

(** ** load_data *)

Lemma load_loop_step {Row : Type} batch_size stmt (unread : list Row) pg total :
  load_loop batch_size stmt unread pg total
  = match fetchmany batch_size unread with
    | ([], _) => (pg, total)
    | (r :: rows, unread') =>
        load_loop batch_size stmt unread'
          (pg_commit (execute_values pg stmt (r :: rows) (length (r :: rows))))
          (total + Z.of_nat (length (r :: rows)))
    end.
Proof.
  rewrite load_loop_equation_1.
  assert (G : forall x : {b | fetchmany batch_size unread = b},
             load_loop_unfold_clause_1 Row batch_size stmt unread x pg total
             = match proj1_sig x with
               | ([], _) => (pg, total)
               | (r :: rows, unread') =>
                   load_loop batch_size stmt unread'
                     (pg_commit
                        (execute_values pg stmt (r :: rows) (length (r :: rows))))
                     (total + Z.of_nat (length (r :: rows)))
               end).
  { intros [[[|r rows] unread'] e]; reflexivity. }
  apply G.
Qed.

Lemma paginate_all {Row : Type} (l : list Row) :
  l <> [] -> paginate (length l) l = [l].
Proof.
  intros Hl. unfold paginate. cbn [paginate_fuel].
  rewrite Nat.ltb_irrefl, firstn_all, drop_all.
  destruct l as [|x l]; [congruence|]. reflexivity.
Qed.

Lemma execute_values_all {Row : Type} (pg : pg_conn Row) stmt (l : list Row) :
  l <> [] ->
  execute_values pg stmt l (length l) = pg ++ [PgExecuteValues stmt l].
Proof. intros Hl. unfold execute_values. now rewrite paginate_all. Qed.

Lemma ceil_div_small (r b : nat) :
  (0 < r)%nat -> (r <= b)%nat -> ((r + b - 1) / b = 1)%nat.
Proof.
  intros Hr Hb. symmetry. apply (Nat.div_unique _ _ _ (r - 1)); lia.
Qed.

Lemma ceil_div_step (r b : nat) :
  (0 < b)%nat -> (b < r)%nat ->
  ((r + b - 1) / b = S ((r - b + b - 1) / b))%nat.
Proof.
  intros Hb Hr. replace (r + b - 1)%nat with ((r - b + b - 1) + 1 * b)%nat by lia.
  rewrite Nat.div_add by lia. lia.
Qed.

Lemma load_loop_spec {Row : Type} batch_size stmt :
  (0 < batch_size)%Z ->
  forall (n : nat) (unread : list Row) pg total,
    (length unread <= n)%nat ->
    exists chunks,
      load_loop batch_size stmt unread pg total
      = (pg ++ flat_map (fun chunk => [PgExecuteValues stmt chunk; PgCommit])
                 chunks,
         (total + Z.of_nat (length unread))%Z) /\
      concat chunks = unread /\
      length chunks
      = ((length unread + Z.to_nat batch_size - 1) / Z.to_nat batch_size)%nat /\
      Forall (fun chunk =>
                (0 < length chunk <= Z.to_nat batch_size)%nat) chunks.
Proof.
  intros HB. assert (Hk : (0 < Z.to_nat batch_size)%nat) by lia.
  assert (E0 : (batch_size =? 0)%Z = false) by (apply Z.eqb_neq; lia).
  induction n as [|n IH]; intros unread pg total Hn;
    rewrite load_loop_step; unfold fetchmany; rewrite E0;
    (destruct unread as [|x u];
     [ exists []; rewrite take_nil, app_nil_r, Z.add_0_r;
       repeat split; [|constructor];
       cbn [length]; symmetry; apply Nat.div_small; lia |]).
  - cbn [length] in Hn. lia.
  - destruct (Z.to_nat batch_size) as [|k] eqn:Ek; [lia|].
    cbn [take drop]. cbn [length] in Hn.
    assert (Hd : (length (drop k u) <= n)%nat) by (rewrite length_drop; lia).
    destruct (IH (drop k u)
                (pg_commit
                   (execute_values pg stmt (x :: take k u)
                      (length (x :: take k u))))
                (total + Z.of_nat (length (x :: take k u)))%Z Hd)
      as (chunks & E & Hc & Hl & Hf).
    exists ((x :: take k u) :: chunks). rewrite E.
    rewrite execute_values_all by discriminate. unfold pg_commit.
    cbn [flat_map concat length]. rewrite Hc, Hl.
    rewrite length_take, length_drop.
    split; [|split; [|split]].
    + f_equal; [now rewrite <- !app_assoc|]. lia.
    + cbn [app]. now rewrite take_drop.
    + destruct (Nat.le_gt_cases (S (length u)) (S k)) as [Hs|Hs].
      * rewrite (ceil_div_small (S (length u)) (S k)) by lia.
        replace (length u - k)%nat with 0%nat by lia.
        f_equal. apply Nat.div_small. lia.
      * rewrite (ceil_div_step (S (length u)) (S k)) by lia.
        do 2 f_equal; lia.
    + constructor; [|exact Hf]. cbn [length]. rewrite length_take. lia.
Qed.

Lemma insert_stmt_eq schema_norm table_norm pg_cols :
  insert_stmt schema_norm table_norm pg_cols
  = Ok (Composed [SQL (cps "INSERT INTO "); Identifier schema_norm;
                  SQL (cps "."); Identifier table_norm; SQL (cps " (");
                  sql_join (SQL (cps ", ")) (List.map Identifier pg_cols);
                  SQL (cps ") VALUES %s")]).
Proof. reflexivity. Qed.

Lemma count_inserts_batches {Row : Type} stmt (chunks : list (list Row)) :
  length (List.filter is_insert
            (flat_map (fun chunk => [PgExecuteValues stmt chunk; PgCommit])
               chunks))
  = length chunks.
Proof. induction chunks as [|c l IH]; cbn; [reflexivity|now rewrite IH]. Qed.

(** C3. When the source cursor yields [R] rows and [batch_size] is [B > 0],
    [load_data] issues one multi-row insert statement per chunk of at most
    [B] rows, each followed at once by a commit and nothing else; the chunks
    are the rows of the cursor in order; there are [ceil(R/B)] of them; and
    the count it returns is [R]. *)
Theorem load_data_batches {Row : Type} (my : my_conn Row) (pg : pg_conn Row)
    (src_db src_table schema_norm table_norm : pystr)
    (pg_cols mysql_cols : list pystr) (batch_size : Z) :
  (0 < batch_size)%Z ->
  let rows := my_select my (select_sql mysql_cols src_db src_table) in
  let R := length rows in
  let B := Z.to_nat batch_size in
  exists stmt chunks pg',
    insert_stmt schema_norm table_norm pg_cols = Ok stmt /\
    load_data my pg src_db src_table schema_norm table_norm pg_cols mysql_cols
      batch_size
    = Ok (pg', Z.of_nat R) /\
    pg' = pg ++ flat_map (fun chunk => [PgExecuteValues stmt chunk; PgCommit])
                  chunks /\
    concat chunks = rows /\
    Forall (fun chunk => (0 < length chunk <= B)%nat) chunks /\
    length chunks = ((R + B - 1) / B)%nat /\
    length (List.filter is_insert (drop (length pg) pg'))
    = ((R + B - 1) / B)%nat.
Proof.
  intros HB rows R B. unfold load_data. rewrite insert_stmt_eq. cbn [bind].
  eexists. fold rows.
  destruct (load_loop_spec batch_size
              (Composed [SQL (cps "INSERT INTO "); Identifier schema_norm;
                         SQL (cps "."); Identifier table_norm; SQL (cps " (");
                         sql_join (SQL (cps ", ")) (List.map Identifier pg_cols);
                         SQL (cps ") VALUES %s")])
              HB (length rows) rows pg 0%Z (Nat.le_refl _))
    as (chunks & E & Hc & Hl & Hf).
  exists chunks. eexists. split; [reflexivity|]. rewrite E.
  split; [reflexivity|]. split; [reflexivity|].
  split; [exact Hc|]. split; [exact Hf|]. split; [exact Hl|].
  rewrite drop_app_length, count_inserts_batches. exact Hl.
Qed.

Lemma load_data_batches_witness :
  (0 < 2)%Z /\
  exists stmt chunks pg',
    load_data (Row := nat)
      {| my_select := fun _ => [10; 20; 30; 40; 50]%nat;
         my_columns := fun _ _ => [];
         my_pk := fun _ _ => [] |}
      [] (cps "db") (cps "t") (cps "prd_ahp") (cps "t") [cps "a"] [cps "a"] 2
    = Ok (pg', 5%Z) /\
    pg' = flat_map (fun chunk => [PgExecuteValues stmt chunk; PgCommit]) chunks /\
    length chunks = 3%nat.
Proof.
  split; [lia|].
  destruct (load_data_batches (Row := nat)
              {| my_select := fun _ => [10; 20; 30; 40; 50]%nat;
                 my_columns := fun _ _ => [];
                 my_pk := fun _ _ => [] |}
              [] (cps "db") (cps "t") (cps "prd_ahp") (cps "t")
              [cps "a"] [cps "a"] 2 ltac:(lia))
    as (stmt & chunks & pg' & _ & E & Hpg & _ & _ & Hl & _).
  exists stmt, chunks, pg'. split; [exact E|]. split; [exact Hpg|exact Hl].
Defined.

(** ** ensure_schema_and_table *)

Lemma map_result_ok {A B : Type} (f : A -> result B) (l : list A) :
  (forall x, exists y, f x = Ok y) ->
  exists l', map_result f l = Ok l' /\ length l' = length l.
Proof.
  intros Hf. induction l as [|x l (l' & E & Hl)]; cbn [map_result].
  - now exists [].
  - destruct (Hf x) as (y & Ey). rewrite Ey, E. cbn [bind].
    exists (y :: l'). cbn [length]. now rewrite Hl.
Qed.

Lemma dedupe_idents_ok idents :
  exists out, dedupe_idents idents = Ok out /\ length out = length idents.
Proof.
  unfold dedupe_idents.
  destruct (dedupe_loop_spec idents ∅ [] []) as (res & E & Hl & _).
  { intros y. now rewrite lookup_empty. }
  now exists res.
Qed.

Lemma fold_insert_none (pairs : list (pystr * pystr)) (d : gmap pystr pystr) k :
  fold_left (fun d kv => <[kv.1 := kv.2]> d) pairs d !! k = None <->
  d !! k = None /\ ~ In k (List.map fst pairs).
Proof.
  revert d. induction pairs as [|[a b] pairs IH]; intros d; cbn [fold_left].
  - cbn. tauto.
  - rewrite IH. cbn [List.map fst snd In].
    destruct (decide (a = k)) as [->|Hne].
    + rewrite lookup_insert_eq. split; [intros [? _]; discriminate|].
      intros [_ H]. exfalso. apply H. now left.
    + rewrite lookup_insert_ne by exact Hne. tauto.
Qed.

Lemma fold_insert_some (pairs : list (pystr * pystr)) (d : gmap pystr pystr) k v :
  fold_left (fun d kv => <[kv.1 := kv.2]> d) pairs d !! k = Some v ->
  d !! k = Some v \/ In (k, v) pairs.
Proof.
  revert d. induction pairs as [|[a b] pairs IH]; intros d; cbn [fold_left].
  - now left.
  - intros H. apply IH in H as [H|H]; [|right; now right].
    cbn [fst snd] in H. destruct (decide (a = k)) as [->|Hne].
    + rewrite lookup_insert_eq in H. injection H as ->. right. now left.
    + rewrite lookup_insert_ne in H by exact Hne. now left.
Qed.

Lemma name_map_none (names cols : list pystr) k :
  length names = length cols ->
  dict_of_pairs (zip names cols) !! k = None <-> ~ In k names.
Proof.
  intros Hl. unfold dict_of_pairs. rewrite fold_insert_none, lookup_empty.
  change (List.map fst (zip names cols)) with ((zip names cols).*1).
  rewrite fst_zip by lia. tauto.
Qed.

Lemma name_map_some (names cols : list pystr) k v :
  dict_of_pairs (zip names cols) !! k = Some v -> In k names /\ In v cols.
Proof.
  unfold dict_of_pairs. intros H. apply fold_insert_some in H as [H|H].
  - now rewrite lookup_empty in H.
  - apply list_elem_of_In in H. split; apply list_elem_of_In.
    + eapply elem_of_zip_l, H.
    + eapply elem_of_zip_r, H.
Qed.

Lemma pk_lookup_eq (name_map : gmap pystr pystr) pk :
  pk_lookup name_map pk = Ok (omap (fun x => name_map !! x) pk).
Proof.
  induction pk as [|x pk IH]; cbn [pk_lookup omap list_omap]; [reflexivity|].
  unfold dict_contains, dict_get. rewrite IH.
  now destruct (name_map !! x).
Qed.

Lemma pk_normalized_eq names cols pk :
  pk_normalized names cols pk
  = Ok (omap (fun x => dict_of_pairs (zip names cols) !! x) pk).
Proof.
  unfold pk_normalized. destruct pk as [|x pk]; [reflexivity|].
  apply pk_lookup_eq.
Qed.

Lemma map_result_map {A B : Type} (f : A -> result B) (g : A -> B) l :
  (forall x, f x = Ok (g x)) -> map_result f l = Ok (List.map g l).
Proof.
  intros H. induction l as [|x l IH]; cbn [map_result List.map]; [reflexivity|].
  now rewrite H, IH.
Qed.

Lemma column_def_eq U c n :
  column_def U c n
  = Ok (Composed
          [Identifier n; SQL (cps " ");
           SQL (map_mysql_to_pg U (DATA_TYPE c) (COLUMN_TYPE c));
           default_clause U (map_mysql_to_pg U (DATA_TYPE c) (COLUMN_TYPE c))
             (COLUMN_DEFAULT c);
           if str_eqb (IS_NULLABLE c) (cps "YES") then SQL []
           else SQL (cps " NOT NULL")]).
Proof. reflexivity. Qed.

Lemma primary_key_clause_eq pk_norm :
  primary_key_clause pk_norm
  = Ok match pk_norm with
       | [] => SQL []
       | _ => Composed [pk_fragment;
                        sql_join (SQL (cps ", ")) (List.map Identifier pk_norm);
                        SQL (cps ")")]
       end.
Proof. destruct pk_norm; reflexivity. Qed.

Lemma target_type_not_pk d t :
  target_type d t -> SQL t <> pk_fragment.
Proof.
  unfold pk_fragment.
  intros [H | [(p & s & _ & _ & ->) | (n & _ & ->)]]; try discriminate.
  unfold fixed_targets in H. cbn [In] in H.
  repeat destruct H as [<- | H]; try discriminate. destruct H.
Qed.

Lemma fullmatch_number_not_pk U d :
  ascii_conformant U ->
  fullmatch_number (re_digit U) d = true -> SQL d <> pk_fragment.
Proof.
  intros (_ & _ & _ & Hd) H [= ->].
  change (cps ", PRIMARY KEY (")
    with (44 :: cps " PRIMARY KEY (") in H.
  unfold fullmatch_number, digits1 in H.
  cbn [N.eqb Pos.eqb orb span] in H.
  rewrite (Hd 44 eq_refl) in H. discriminate H.
Qed.

Lemma default_clause_leaves U ty d :
  ascii_conformant U ->
  ~ In pk_fragment (sql_leaves (default_clause U ty d)).
Proof.
  intros HU. unfold default_clause.
  destruct d as [d|]; [|intros [H|[]]; discriminate H].
  repeat match goal with
    | |- context [if ?b then _ else _] =>
        lazymatch b with
        | context [if _ then _ else _] => fail
        | _ => let E := fresh "E" in destruct b eqn:E
        end
    end;
  cbn [sql_leaves sql_add composed_items app flat_map In];
  intros H; repeat destruct H as [H|H]; try discriminate H; try exact H.
  now apply (fullmatch_number_not_pk U d HU).
Qed.

Lemma sql_join_items_in sep l x :
  In x (sql_join_items sep l) -> x = sep \/ In x l.
Proof.
  induction l as [|a l IH]; cbn [sql_join_items]; [tauto|].
  destruct l as [|b l]; [cbn; tauto|]. cbn [In] in IH |- *.
  intros [->|[->|H]]; [tauto|tauto|]. apply IH in H. tauto.
Qed.

Lemma create_schema_eq schema_norm :
  sql_format (cps "CREATE SCHEMA IF NOT EXISTS {};") [Identifier schema_norm]
  = Ok (Composed [SQL (cps "CREATE SCHEMA IF NOT EXISTS ");
                  Identifier schema_norm; SQL (cps ";")]).
Proof. reflexivity. Qed.

Lemma create_table_eq schema_norm table_norm :
  sql_format (cps " CREATE TABLE IF NOT EXISTS {}.{} (")
    [Identifier schema_norm; Identifier table_norm]
  = Ok (Composed [SQL (cps " CREATE TABLE IF NOT EXISTS ");
                  Identifier schema_norm; SQL (cps ".");
                  Identifier table_norm; SQL (cps " (")]).
Proof. reflexivity. Qed.

Lemma omap_nonempty {A B : Type} (f : A -> option B) l :
  omap f l <> [] <-> exists x, In x l /\ f x <> None.
Proof.
  induction l as [|a l IH]; cbn [omap list_omap In].
  - split; [congruence|]. intros (x & [] & _).
  - destruct (f a) eqn:E.
    + split; [|discriminate]. intros _. exists a. split; [now left|congruence].
    + rewrite IH. split.
      * intros (x & Hx & Hf). exists x. split; [now right|exact Hf].
      * intros (x & [<-|Hx] & Hf); [congruence|]. now exists x.
Qed.

Lemma column_defs_leaves U (l : list (mysql_column * pystr)) :
  ascii_conformant U ->
  ~ In pk_fragment
      (flat_map sql_leaves
         (sql_join_items (SQL (cps ", "))
            (List.map
               (fun cn =>
                  Composed
                    [Identifier cn.2; SQL (cps " ");
                     SQL (map_mysql_to_pg U (DATA_TYPE cn.1) (COLUMN_TYPE cn.1));
                     default_clause U
                       (map_mysql_to_pg U (DATA_TYPE cn.1) (COLUMN_TYPE cn.1))
                       (COLUMN_DEFAULT cn.1);
                     if str_eqb (IS_NULLABLE cn.1) (cps "YES") then SQL []
                     else SQL (cps " NOT NULL")]) l))).
Proof.
  intros HU H. apply in_flat_map in H as (x & Hx & Hl).
  apply sql_join_items_in in Hx as [->|Hx].
  - destruct Hl as [Hl|[]]. discriminate Hl.
  - apply in_map_iff in Hx as ([c n] & <- & _).
    cbn [sql_leaves flat_map fst snd] in Hl. rewrite !in_app_iff in Hl.
    destruct Hl as [Hl|[Hl|[Hl|[Hl|[Hl|[]]]]]].
    + destruct Hl as [Hl|[]]. discriminate Hl.
    + destruct Hl as [Hl|[]]. discriminate Hl.
    + destruct Hl as [Hl|[]].
      now apply (target_type_not_pk _ _ (map_mysql_to_pg_target U _ _)) in Hl.
    + now apply default_clause_leaves in Hl.
    + destruct (str_eqb _ _); destruct Hl as [Hl|[]]; discriminate Hl.
Qed.

Lemma ensure_schema_and_table_spec {Row : Type} (U : unicode_db)
    (HU : ascii_conformant U) (pg : pg_conn Row) (schema table : pystr)
    (mysql_cols : list mysql_column) (mysql_pk_cols : list pystr) :
  let names := List.map COLUMN_NAME mysql_cols in
  exists schema_norm table_norm pg_cols name_map pk_norm ddl body,
    ensure_schema_and_table U pg schema table mysql_cols mysql_pk_cols
    = Ok (pg ++ [PgExecute ddl; PgCommit],
          (schema_norm, table_norm, pg_cols, names)) /\
    normalize_ident U schema = Ok schema_norm /\
    normalize_ident U table = Ok table_norm /\
    name_map = dict_of_pairs (zip names pg_cols) /\
    (forall x, name_map !! x = None <-> ~ In x names) /\
    (forall x v, name_map !! x = Some v -> In v pg_cols) /\
    pk_normalized names pg_cols mysql_pk_cols = Ok pk_norm /\
    pk_norm = omap (fun x => name_map !! x) mysql_pk_cols /\
    (pk_norm <> [] <-> exists x, In x mysql_pk_cols /\ In x names) /\
    ddl = Composed
            (body
             ++ match pk_norm with
                | [] => [SQL []]
                | _ => [pk_fragment;
                        sql_join (SQL (cps ", ")) (List.map Identifier pk_norm);
                        SQL (cps ")")]
                end
             ++ [SQL (cps ");")]) /\
    (exists rest, body = SQL (cps "CREATE SCHEMA IF NOT EXISTS ") :: rest) /\
    ~ In pk_fragment (flat_map sql_leaves body) /\
    (In pk_fragment (sql_leaves ddl) <-> pk_norm <> []).
Proof.
  intros names. unfold ensure_schema_and_table.
  destruct (normalize_ident_normal_form U schema HU) as (sn & Es & _).
  destruct (normalize_ident_normal_form U table HU) as (tn & Et & _).
  destruct (map_result_ok (normalize_ident U) names) as (normalized & En & Hn).
  { intros x. destruct (normalize_ident_normal_form U x HU) as (y & E & _).
    now exists y. }
  destruct (dedupe_idents_ok normalized) as (pg_cols & Ed & Hd).
  fold names. rewrite Es. cbn [bind]. rewrite Et. cbn [bind].
  rewrite En. cbn [bind]. rewrite Ed. cbn [bind].
  rewrite pk_normalized_eq. cbn [bind].
  rewrite (map_result_map _ _ _ (fun cn => column_def_eq U cn.1 cn.2)).
  cbn [bind]. rewrite primary_key_clause_eq. cbn [bind].
  rewrite create_schema_eq, create_table_eq. cbn [bind].
  set (name_map := dict_of_pairs (zip names pg_cols)).
  set (pk_norm := omap (fun x => name_map !! x) mysql_pk_cols).
  set (defs := List.map _ (zip mysql_cols pg_cols)).
  set (body := [SQL (cps "CREATE SCHEMA IF NOT EXISTS "); Identifier sn;
                SQL (cps ";"); SQL (cps " CREATE TABLE IF NOT EXISTS ");
                Identifier sn; SQL (cps "."); Identifier tn; SQL (cps " (")]
               ++ sql_join_items (SQL (cps ", ")) defs).
  assert (Hlen : length names = length pg_cols).
  { unfold names in *. rewrite Hd, Hn. reflexivity. }
  assert (Hbody : ~ In pk_fragment (flat_map sql_leaves body)).
  { unfold body. rewrite flat_map_app, in_app_iff. intros [H|H].
    - cbn [flat_map sql_leaves app In] in H.
      repeat destruct H as [H|H]; try discriminate H. exact H.
    - now apply (column_defs_leaves U _ HU) in H. }
  exists sn, tn, pg_cols, name_map, pk_norm.
  exists (Composed (body
                    ++ match pk_norm with
                       | [] => [SQL []]
                       | _ => [pk_fragment;
                               sql_join (SQL (cps ", "))
                                 (List.map Identifier pk_norm);
                               SQL (cps ")")]
                       end
                    ++ [SQL (cps ");")])).
  exists body.
  split.
  { unfold pg_commit, pg_execute, sql_add, sql_join. cbn [composed_items].
    rewrite <- !app_assoc. unfold body. do 5 f_equal.
    rewrite <- !app_assoc. do 2 f_equal. now destruct pk_norm. }
  split; [reflexivity|]. split; [reflexivity|].
  split; [reflexivity|].
  split; [intros x; now apply name_map_none|].
  split; [intros x v H; now apply name_map_some in H|].
  split; [apply pk_normalized_eq|]. split; [reflexivity|].
  split.
  { unfold pk_norm. rewrite omap_nonempty. split.
    - intros (x & Hx & Hf). exists x. split; [exact Hx|].
      destruct (name_map !! x) as [v|] eqn:E; [|congruence].
      now apply name_map_some in E.
    - intros (x & Hx & Hin). exists x. split; [exact Hx|]. intros E.
      now apply (name_map_none names pg_cols) in E. }
  split; [reflexivity|]. split; [now eexists|]. split; [exact Hbody|].
  cbn [sql_leaves]. rewrite !flat_map_app, !in_app_iff. split.
  - intros [H|[H|H]].
    + now apply Hbody in H.
    + destruct pk_norm; [|discriminate].
      destruct H as [H|[]]. discriminate H.
    + destruct H as [H|[]]. discriminate H.
  - intros Hne. right. left. destruct pk_norm; [congruence|]. now left.
Qed.

(** C9. [ensure_schema_and_table] never raises.  The normalised primary key
    holds, in order, the target name of every primary-key column that is among
    the source columns; a primary-key column that is not among them is left
    out, without an error.  The DDL it executes, and then commits, ends with a
    PRIMARY KEY clause over those names when the list is not empty, and
    mentions no PRIMARY KEY clause when it is empty. *)
Theorem ensure_schema_and_table_primary_key {Row : Type} (U : unicode_db)
    (HU : ascii_conformant U) (pg : pg_conn Row) (schema table : pystr)
    (mysql_cols : list mysql_column) (mysql_pk_cols : list pystr) :
  let names := List.map COLUMN_NAME mysql_cols in
  exists schema_norm table_norm pg_cols name_map pk_norm ddl body,
    ensure_schema_and_table U pg schema table mysql_cols mysql_pk_cols
    = Ok (pg ++ [PgExecute ddl; PgCommit],
          (schema_norm, table_norm, pg_cols, names)) /\
    normalize_ident U schema = Ok schema_norm /\
    normalize_ident U table = Ok table_norm /\
    name_map = dict_of_pairs (zip names pg_cols) /\
    (forall x, name_map !! x = None <-> ~ In x names) /\
    (forall x v, name_map !! x = Some v -> In v pg_cols) /\
    pk_normalized names pg_cols mysql_pk_cols = Ok pk_norm /\
    pk_norm = omap (fun x => name_map !! x) mysql_pk_cols /\
    (pk_norm <> [] <-> exists x, In x mysql_pk_cols /\ In x names) /\
    ddl = Composed
            (body
             ++ match pk_norm with
                | [] => [SQL []]
                | _ => [pk_fragment;
                        sql_join (SQL (cps ", ")) (List.map Identifier pk_norm);
                        SQL (cps ")")]
                end
             ++ [SQL (cps ");")]) /\
    (exists rest, body = SQL (cps "CREATE SCHEMA IF NOT EXISTS ") :: rest) /\
    ~ In pk_fragment (flat_map sql_leaves body) /\
    (In pk_fragment (sql_leaves ddl) <-> pk_norm <> []).
Proof. exact (ensure_schema_and_table_spec U HU pg schema table mysql_cols mysql_pk_cols). Qed.

Lemma ensure_schema_and_table_primary_key_witness :
  ascii_conformant ascii_db /\
  exists schema_norm table_norm pg_cols pk_norm ddl,
    ensure_schema_and_table (Row := nat) ascii_db [] (cps "prd_ahp")
      (cps "Destinos")
      [ {| COLUMN_NAME := cps "id"; COLUMN_TYPE := Some (cps "int(11)");
           DATA_TYPE := Some (cps "int"); IS_NULLABLE := cps "NO";
           COLUMN_DEFAULT := None |};
        {| COLUMN_NAME := cps "Precio m2"; COLUMN_TYPE := Some (cps "decimal(10,2)");
           DATA_TYPE := Some (cps "decimal"); IS_NULLABLE := cps "YES";
           COLUMN_DEFAULT := Some (cps "0.00") |} ]
      [cps "id"; cps "ghost"]
    = Ok ([PgExecute ddl; PgCommit],
          (schema_norm, table_norm, pg_cols, [cps "id"; cps "Precio m2"])) /\
    pk_normalized [cps "id"; cps "Precio m2"] pg_cols [cps "id"; cps "ghost"]
    = Ok pk_norm /\
    (In pk_fragment (sql_leaves ddl) <-> pk_norm <> []).
Proof.
  split; [exact ascii_db_conformant|].
  destruct (ensure_schema_and_table_primary_key (Row := nat) ascii_db
              ascii_db_conformant [] (cps "prd_ahp") (cps "Destinos")
              [ {| COLUMN_NAME := cps "id"; COLUMN_TYPE := Some (cps "int(11)");
                   DATA_TYPE := Some (cps "int"); IS_NULLABLE := cps "NO";
                   COLUMN_DEFAULT := None |};
                {| COLUMN_NAME := cps "Precio m2";
                   COLUMN_TYPE := Some (cps "decimal(10,2)");
                   DATA_TYPE := Some (cps "decimal"); IS_NULLABLE := cps "YES";
                   COLUMN_DEFAULT := Some (cps "0.00") |} ]
              [cps "id"; cps "ghost"])
    as (sn & tn & pg_cols & name_map & pk_norm & ddl & body
        & E & _ & _ & _ & _ & _ & Hpk & _ & _ & _ & _ & _ & Hin).
  exists sn, tn, pg_cols, pk_norm, ddl.
  split; [exact E|]. split; [exact Hpk|exact Hin].
Defined.

(** ** main *)

Lemma lower_strip_ascii U s :
  ascii_conformant U -> forallb is_ascii s = true ->
  py_lower U (strip (py_isspace U) s)
  = List.map ascii_lower_char (strip ascii_isspace s).
Proof.
  intros (Hl & Hs & _) Ha.
  rewrite (strip_ext_in (py_isspace U) ascii_isspace).
  - apply Hl. now apply forallb_strip.
  - intros c Hc. apply Hs. rewrite forallb_forall in Ha. now apply Ha.
Qed.

Lemma load_loop_events {Row : Type} batch_size stmt :
  forall (n : nat) (unread : list Row) pg total,
    (length unread <= n)%nat ->
    exists evs,
      (load_loop batch_size stmt unread pg total).1 = pg ++ evs /\
      forall s, ~ In (PgExecute s) evs.
Proof.
  induction n as [|n IH]; intros unread pg total Hn; rewrite load_loop_step;
    destruct (fetchmany batch_size unread) as [[|r rows] unread'] eqn:E;
    try (exists []; rewrite app_nil_r; split; [reflexivity|intros s []]);
    unfold fetchmany in E; injection E as Et Ed.
  - destruct unread; [|cbn [length] in Hn; lia].
    now rewrite take_nil in Et.
  - destruct (Z.to_nat _) as [|k]; [discriminate Et|].
    destruct unread as [|x u]; [discriminate Et|].
    cbn [length] in Hn. cbn [drop] in Ed.
    assert (Hd : (length unread' <= n)%nat).
    { rewrite <- Ed, length_drop. lia. }
    destruct (IH unread'
                (pg_commit
                   (execute_values pg stmt (r :: rows) (length (r :: rows))))
                (total + Z.of_nat (length (r :: rows)))%Z Hd)
      as (evs & E & Hevs).
    exists ([PgExecuteValues stmt (r :: rows); PgCommit] ++ evs).
    split.
    + rewrite E, execute_values_all by discriminate. unfold pg_commit.
      now rewrite <- !app_assoc.
    + intros s [H|[H|H]]; [discriminate H|discriminate H|].
      now apply Hevs in H.
Qed.

(** C10. The load mode is the LOAD_MODE value stripped of surrounding white
    space and lower-cased, and it is this string that is compared with
    [replace]: for every raw value [v], the ingestion of a table truncates the
    target exactly when [v.strip().lower()] is [replace].  [REPLACE] and
    [ Replace ] select the replace mode; an unset LOAD_MODE is [append]. *)
Theorem main_load_mode_replace {Row : Type} (U : unicode_db)
    (HU : ascii_conformant U) (env : gmap pystr pystr) (my : my_conn Row)
    (pg : pg_conn Row) (batch_size : Z)
    (src_db src_table tgt_schema tgt_table v : pystr) :
  env !! cps "LOAD_MODE" = Some v ->
  my_columns my src_db src_table <> [] ->
  main_load_mode U env = py_lower U (strip (py_isspace U) v) /\
  (exists pg' total schema_norm table_norm,
      normalize_ident U tgt_schema = Ok schema_norm /\
      normalize_ident U tgt_table = Ok table_norm /\
      main_ingest U my pg (main_load_mode U env) batch_size
        src_db src_table tgt_schema tgt_table
      = Ok (pg', total) /\
      (In (PgExecute
             (Composed [SQL (cps "TRUNCATE TABLE "); Identifier schema_norm;
                        SQL (cps "."); Identifier table_norm; SQL (cps ";")]))
          (drop (length pg) pg')
       <-> py_lower U (strip (py_isspace U) v) = cps "replace")) /\
  main_load_mode U (<[cps "LOAD_MODE" := cps "REPLACE"]> ∅) = cps "replace" /\
  main_load_mode U (<[cps "LOAD_MODE" := cps " Replace "]> ∅) = cps "replace" /\
  main_load_mode U (<[cps "LOAD_MODE" := cps "append"]> ∅) = cps "append" /\
  main_load_mode U ∅ = cps "append".
Proof.
  intros Hv Hcols.
  assert (Hm : main_load_mode U env = py_lower U (strip (py_isspace U) v)).
  { unfold main_load_mode, getenv. now rewrite Hv. }
  split; [exact Hm|]. split.
  - rewrite Hm. set (mode := py_lower U (strip (py_isspace U) v)).
    unfold main_ingest, mysql_columns, mysql_pk.
    destruct (my_columns my src_db src_table) as [|c cols] eqn:Ec;
      [congruence|]. cbn [bind].
    destruct (ensure_schema_and_table_spec U HU pg tgt_schema tgt_table
                (c :: cols) (my_pk my src_db src_table))
      as (sn & tn & pg_cols & name_map & pk_norm & ddl & body
          & E & Hsn & Htn & _ & _ & _ & _ & _ & _ & Hddl & (rest & Hb) & _ & _).
    rewrite E. cbn [bind]. unfold maybe_truncate, load_data.
    rewrite truncate_stmt_eq, insert_stmt_eq.
    set (trunc := Composed [SQL (cps "TRUNCATE TABLE "); Identifier sn;
                            SQL (cps "."); Identifier tn; SQL (cps ";")]).
    assert (Hne : PgExecute (Row := Row) ddl <> PgExecute trunc).
    { rewrite Hddl, Hb. unfold trunc. intros [=]. }
    destruct (str_eqb mode (cps "replace")) eqn:Er; cbn [bind].
    + apply str_eqb_eq in Er.
      set (pg1 := pg_commit (pg_execute (pg ++ [PgExecute ddl; PgCommit]) trunc)).
      destruct (load_loop_events batch_size
                  (Composed [SQL (cps "INSERT INTO "); Identifier sn;
                             SQL (cps "."); Identifier tn; SQL (cps " (");
                             sql_join (SQL (cps ", "))
                               (List.map Identifier pg_cols);
                             SQL (cps ") VALUES %s")])
                  _ (my_select my
                       (select_sql (List.map COLUMN_NAME (c :: cols))
                          src_db src_table)) pg1 0%Z (Nat.le_refl _))
        as (evs & El & Hevs).
      destruct (load_loop _ _ _ pg1 _) as [pg' total]. cbn [fst] in El.
      exists pg', total, sn, tn.
      split; [exact Hsn|]. split; [exact Htn|]. split; [reflexivity|].
      subst pg' pg1. unfold pg_commit, pg_execute.
      rewrite <- !app_assoc, drop_app_length. cbn [app].
      split; [intros _; exact Er|]. intros _. right. right. now left.
    + assert (Hr : mode <> cps "replace").
      { intros H. apply str_eqb_eq in H. congruence. }
      set (pg1 := pg ++ [PgExecute ddl; PgCommit]).
      destruct (load_loop_events batch_size
                  (Composed [SQL (cps "INSERT INTO "); Identifier sn;
                             SQL (cps "."); Identifier tn; SQL (cps " (");
                             sql_join (SQL (cps ", "))
                               (List.map Identifier pg_cols);
                             SQL (cps ") VALUES %s")])
                  _ (my_select my
                       (select_sql (List.map COLUMN_NAME (c :: cols))
                          src_db src_table)) pg1 0%Z (Nat.le_refl _))
        as (evs & El & Hevs).
      destruct (load_loop _ _ _ pg1 _) as [pg' total]. cbn [fst] in El.
      exists pg', total, sn, tn.
      split; [exact Hsn|]. split; [exact Htn|]. split; [reflexivity|].
      subst pg' pg1. rewrite <- !app_assoc, drop_app_length. cbn [app].
      split; [|intros H; contradiction].
      intros [H|[H|H]]; [contradiction|discriminate H|].
      now apply Hevs in H.
  - assert (L : forall s, forallb is_ascii s = true ->
                  main_load_mode U (<[cps "LOAD_MODE" := s]> ∅)
                  = List.map ascii_lower_char (strip ascii_isspace s)).
    { intros s Hs. unfold main_load_mode, getenv.
      rewrite lookup_insert_eq. now apply lower_strip_ascii. }
    repeat split; try (now rewrite L).
    unfold main_load_mode, getenv. rewrite lookup_empty.
    now rewrite lower_strip_ascii.
Qed.

Lemma main_load_mode_replace_witness :
  ascii_conformant ascii_db /\
  example_env !! cps "LOAD_MODE" = Some (cps " Replace ") /\
  my_columns example_source (cps "ahp") (cps "destinos") <> [] /\
  main_load_mode ascii_db example_env = cps "replace" /\
  exists pg' total,
    main_ingest ascii_db example_source [] (main_load_mode ascii_db example_env)
      500 (cps "ahp") (cps "destinos") (cps "prd_ahp") (cps "Destinos")
    = Ok (pg', total) /\
    In (PgExecute
          (Composed [SQL (cps "TRUNCATE TABLE "); Identifier (cps "prd_ahp");
                     SQL (cps "."); Identifier (cps "destinos");
                     SQL (cps ";")]))
       pg'.
Proof.
  destruct (main_load_mode_replace ascii_db ascii_db_conformant example_env
              example_source [] 500 (cps "ahp") (cps "destinos")
              (cps "prd_ahp") (cps "Destinos") (cps " Replace ")
              eq_refl ltac:(discriminate))
    as (Hm & (pg' & total & sn & tn & Hsn & Htn & E & Hin) & _).
  split; [exact ascii_db_conformant|]. split; [reflexivity|].
  split; [discriminate|]. split; [rewrite Hm; reflexivity|].
  exists pg', total. split; [exact E|].
  vm_compute in Hsn. injection Hsn as <-.
  vm_compute in Htn. injection Htn as <-.
  apply Hin. reflexivity.
Defined.

(** * Further properties of the program *)

(** ** normalize_ident: its fixed points *)

(** X1. The strings [normalize_ident] returns unchanged are exactly the
    identifiers in normal form: a lower-case letter first, then lower-case
    letters, digits and single underscores, the last character not an
    underscore. *)
Theorem normalize_ident_fixed_points (U : unicode_db)
    (HU : ascii_conformant U) (s : pystr) :
  normalize_ident U s = Ok s <-> normal_form s = true.
Proof.
  split.
  - destruct (normalize_ident_normal_form U s HU) as (r & E & Hr).
    rewrite E. intros [= ->]. exact Hr.
  - now apply normalize_ident_fixed.
Qed.

Lemma normalize_ident_fixed_points_witness :
  ascii_conformant ascii_db /\
  normalize_ident ascii_db (cps "precio_m2") = Ok (cps "precio_m2") /\
  normal_form (cps "Precio_m2") = false.
Proof.
  split; [exact ascii_db_conformant|]. split; [|reflexivity].
  apply (normalize_ident_fixed_points ascii_db ascii_db_conformant).
  reflexivity.
Defined.

(** ** dedupe_idents: when it changes nothing, when its result is unique *)

Lemma count_str_zero x l : count_str x l = 0 <-> ~ In x l.
Proof.
  induction l as [|y l IH]; cbn [count_str In]; [tauto|].
  destruct (decide (y = x)) as [->|Hne].
  - rewrite str_eqb_refl. split; [lia|]. intros H. exfalso. apply H. now left.
  - rewrite str_eqb_neq by exact Hne. rewrite N.add_0_l, IH.
    split; [intros H [E|E]; [congruence|tauto] | tauto].
Qed.

Lemma count_str_take_drop x (i : nat) l :
  count_str x l = count_str x (take i l) + count_str x (drop i l).
Proof. now rewrite <- count_str_app, take_drop. Qed.

Lemma count_str_before x (i : nat) l :
  l !! i = Some x -> count_str x (take i l) + 1 <= count_str x l.
Proof.
  intros H. rewrite (count_str_take_drop x i l).
  rewrite (drop_S l x i H). cbn [count_str]. rewrite str_eqb_refl. lia.
Qed.

Lemma count_str_earlier x (i j : nat) l :
  (i < j)%nat -> l !! i = Some x ->
  count_str x (take i l) + 1 <= count_str x (take j l).
Proof.
  intros Hij H.
  replace (take i l) with (take i (take j l))
    by (rewrite take_take; f_equal; lia).
  apply count_str_before. rewrite lookup_take_lt by lia. exact H.
Qed.

Lemma deduped_name_length x k :
  0 < k -> (length x < length (deduped_name x k))%nat.
Proof.
  intros Hk. unfold deduped_name.
  destruct (N.eqb_spec k 0); [lia|]. rewrite length_app.
  change (cps "_") with [95]. cbn [app length]. lia.
Qed.

Lemma dedupe_idents_lookup idents :
  exists out,
    dedupe_idents idents = Ok out /\
    length out = length idents /\
    forall (i : nat) x, idents !! i = Some x ->
      out !! i = Some (deduped_name x (count_str x (take i idents))).
Proof.
  unfold dedupe_idents.
  destruct (dedupe_loop_spec idents ∅ [] []) as (res & E & Hl & Hi).
  { intros y. now rewrite lookup_empty. }
  now exists res.
Qed.

Lemma deduped_name_same x k : deduped_name x k = x -> k = 0.
Proof.
  intros H. destruct (N.eq_dec k 0) as [E|E]; [exact E|].
  pose proof (deduped_name_length x k ltac:(lia)) as L. rewrite H in L. lia.
Qed.

Lemma count_str_take_zero x (i : nat) l :
  NoDup l -> l !! i = Some x -> count_str x (take i l) = 0.
Proof.
  intros Hl Hi. apply count_str_zero. intros Hin.
  apply list_elem_of_In, list_elem_of_lookup in Hin as (j & Hj).
  apply lookup_take_Some in Hj as [Hj Hlt].
  pose proof (NoDup_lookup l i j x Hl Hi Hj). lia.
Qed.

(** X2. [dedupe_idents] returns its argument unchanged exactly when the
    argument has no duplicates. *)
Theorem dedupe_idents_unchanged (idents : list pystr) :
  dedupe_idents idents = Ok idents <-> NoDup idents.
Proof.
  destruct (dedupe_idents_lookup idents) as (out & E & Hl & Hi). rewrite E.
  split.
  - intros [= ->]. apply NoDup_alt.
    assert (L : forall (i j : nat) x, (i < j)%nat ->
                 idents !! i = Some x -> idents !! j = Some x -> False).
    { intros i j x Hij Hxi Hxj.
      pose proof (Hi j x Hxj) as Hj. rewrite Hxj in Hj. injection Hj as Hj.
      symmetry in Hj. apply deduped_name_same in Hj.
      pose proof (count_str_earlier x i j idents Hij Hxi). lia. }
    intros i j x Hxi Hxj.
    destruct (Nat.lt_trichotomy i j) as [H|[H|H]]; [|exact H|];
      exfalso; eauto.
  - intros Hnd. f_equal. apply list_eq. intros i.
    destruct (idents !! i) as [x|] eqn:Hx.
    + rewrite (Hi i x Hx), (count_str_take_zero x i idents Hnd Hx).
      reflexivity.
    + apply lookup_ge_None in Hx. apply lookup_ge_None. lia.
Qed.

Lemma dedupe_idents_unchanged_witness :
  NoDup [cps "id"; cps "nombre"; cps "precio"] /\
  dedupe_idents [cps "id"; cps "nombre"; cps "precio"]
  = Ok [cps "id"; cps "nombre"; cps "precio"].
Proof.
  assert (H : NoDup [cps "id"; cps "nombre"; cps "precio"]).
  { apply (bool_decide_unpack _). vm_compute. exact I. }
  split; [exact H|].
  exact (proj2 (dedupe_idents_unchanged
                  [cps "id"; cps "nombre"; cps "precio"]) H).
Defined.

Lemma uint_cps_inj d d' : uint_cps d = uint_cps d' -> d = d'.
Proof.
  revert d'. induction d as [|d IH|d IH|d IH|d IH|d IH|d IH|d IH|d IH|d IH|d IH];
    intros [|d'|d'|d'|d'|d'|d'|d'|d'|d'|d']; cbn [uint_cps];
    intros H; try discriminate H; try reflexivity;
    injection H as H; f_equal; now apply IH.
Qed.

Lemma py_str_int_inj k k' : py_str_int k = py_str_int k' -> k = k'.
Proof.
  intros H. apply DecimalN.Unsigned.to_uint_inj. now apply uint_cps_inj.
Qed.

Lemma split_at_last a a' (c : N) (d d' : pystr) :
  ~ In c d -> ~ In c d' -> a ++ c :: d = a' ++ c :: d' -> a = a' /\ d = d'.
Proof.
  intros Hd Hd'. revert a'.
  induction a as [|x a IH]; intros [|x' a']; cbn [app]; intros H.
  - injection H as H. now split.
  - injection H as <- H. exfalso. apply Hd. rewrite H. apply in_or_app.
    right. now left.
  - injection H as -> H. exfalso. apply Hd'. rewrite <- H. apply in_or_app.
    right. now left.
  - injection H as -> H. destruct (IH a' H) as [-> ->]. now split.
Qed.

Lemma py_str_int_no_us k : ~ In 95 (py_str_int k).
Proof.
  intros H. destruct (py_str_int_digits k) as [_ Hd].
  rewrite forallb_forall in Hd. specialize (Hd 95 H). discriminate Hd.
Qed.

Lemma deduped_name_inj x x' k k' :
  0 < k -> 0 < k' ->
  deduped_name x k = deduped_name x' k' -> x = x' /\ k = k'.
Proof.
  intros Hk Hk'. unfold deduped_name.
  destruct (N.eqb_spec k 0); [lia|]. destruct (N.eqb_spec k' 0); [lia|].
  change (cps "_") with [95]. cbn [app]. intros H.
  apply split_at_last in H as [-> H]; try apply py_str_int_no_us.
  apply py_str_int_inj in H. split; [reflexivity|lia].
Qed.

Lemma kth_occurrence x l k :
  1 <= k <= count_str x l ->
  exists j : nat, l !! j = Some x /\ count_str x (take j l) = k - 1.
Proof.
  revert k. induction l as [|a l IH] using rev_ind; intros k.
  - cbn [count_str]. lia.
  - rewrite count_str_app. cbn [count_str]. intros Hk.
    destruct (N.le_gt_cases k (count_str x l)) as [Hle|Hgt].
    + destruct (IH k ltac:(lia)) as (j & Hj & Hc). exists j.
      pose proof (lookup_lt_Some _ _ _ Hj) as Hlt.
      rewrite lookup_app_l by exact Hlt. split; [exact Hj|].
      rewrite take_app_le by lia. exact Hc.
    + destruct (decide (a = x)) as [->|Hne].
      * exists (length l). rewrite list_lookup_middle by reflexivity.
        split; [reflexivity|]. rewrite take_app_length.
        rewrite str_eqb_refl in Hk. lia.
      * rewrite str_eqb_neq in Hk by exact Hne. lia.
Qed.

(** X3. The names [dedupe_idents] returns are pairwise distinct exactly when
    no name of the list is another name of the list followed by a suffix
    [_k] that deduplication generates for it ([2 <= k <=] the number of
    occurrences of that other name). *)
Theorem dedupe_idents_distinct_iff (idents : list pystr) :
  exists out,
    dedupe_idents idents = Ok out /\
    (NoDup out <->
     forall x y k,
       In x idents -> In y idents -> 2 <= k <= count_str x idents ->
       y <> x ++ cps "_" ++ py_str_int k).
Proof.
  destruct (dedupe_idents_lookup idents) as (out & E & Hl & Hi).
  exists out. split; [exact E|]. split.
  - intros Hnd x y k Hx Hy Hk ->.
    assert (Hcy : 1 <= 1 <= count_str (x ++ cps "_" ++ py_str_int k) idents).
    { destruct (N.eq_dec (count_str (x ++ cps "_" ++ py_str_int k) idents) 0)
        as [Z|Z]; [apply count_str_zero in Z; contradiction|lia]. }
    destruct (kth_occurrence _ _ _ Hcy) as (i & Hyi & Hci).
    destruct (kth_occurrence x idents k ltac:(lia)) as (j & Hxj & Hcj).
    pose proof (Hi i _ Hyi) as Hoi. pose proof (Hi j _ Hxj) as Hoj.
    rewrite Hci in Hoi. rewrite Hcj in Hoj.
    unfold deduped_name in Hoi, Hoj. cbn [N.eqb N.sub] in Hoi.
    destruct (N.eqb_spec (k - 1) 0) as [|_]; [lia|].
    replace (k - 1 + 1) with k in Hoj by lia.
    pose proof (NoDup_lookup out i j _ Hnd Hoi Hoj) as ->.
    rewrite Hxj in Hyi. injection Hyi as Hyi.
    apply (f_equal (@length N)) in Hyi. rewrite !length_app in Hyi.
    change (cps "_") with [95] in Hyi. cbn [length] in Hyi. lia.
  - intros H. apply NoDup_alt.
    assert (L : forall (i j : nat) z, (i < j)%nat ->
                 out !! i = Some z -> out !! j = Some z -> False).
    { intros i j z Hij Hzi Hzj.
      destruct (idents !! i) as [xi|] eqn:Hxi;
        [|apply lookup_ge_None in Hxi; apply lookup_lt_Some in Hzi; lia].
      destruct (idents !! j) as [xj|] eqn:Hxj;
        [|apply lookup_ge_None in Hxj; apply lookup_lt_Some in Hzj; lia].
      rewrite (Hi i xi Hxi) in Hzi. rewrite (Hi j xj Hxj) in Hzj.
      injection Hzi as Hzi. injection Hzj as Hzj. rewrite <- Hzj in Hzi.
      pose proof (count_str_before xi i idents Hxi) as Bi.
      pose proof (count_str_before xj j idents Hxj) as Bj.
      assert (Ii : In xi idents)
        by (eapply list_elem_of_In, list_elem_of_lookup_2, Hxi).
      assert (Ij : In xj idents)
        by (eapply list_elem_of_In, list_elem_of_lookup_2, Hxj).
      destruct (N.eq_dec (count_str xi (take i idents)) 0) as [Zi|Zi];
        destruct (N.eq_dec (count_str xj (take j idents)) 0) as [Zj|Zj].
      - rewrite Zi, Zj in Hzi. cbn in Hzi. subst xj.
        pose proof (count_str_earlier xi i j idents Hij Hxi). lia.
      - rewrite Zi in Hzi. cbn in Hzi. subst xi.
        apply (H xj (deduped_name xj (count_str xj (take j idents)))
                 (count_str xj (take j idents) + 1)%N Ij Ii); [lia|].
        unfold deduped_name.
        now destruct (N.eqb_spec (count_str xj (take j idents)) 0).
      - rewrite Zj in Hzi. cbn in Hzi. subst xj.
        apply (H xi (deduped_name xi (count_str xi (take i idents)))
                 (count_str xi (take i idents) + 1)%N Ii Ij); [lia|].
        unfold deduped_name.
        now destruct (N.eqb_spec (count_str xi (take i idents)) 0).
      - apply deduped_name_inj in Hzi as [-> Hc]; [|lia|lia].
        pose proof (count_str_earlier xj i j idents Hij Hxi). lia. }
    intros i j z Hzi Hzj.
    destruct (Nat.lt_trichotomy i j) as [Hlt|[Heq|Hlt]]; [|exact Heq|];
      exfalso; eauto.
Qed.

Lemma dedupe_idents_distinct_iff_witness :
  exists out,
    dedupe_idents [cps "a_b"; cps "a_b"; cps "a_b_3"] = Ok out /\
    NoDup out.
Proof.
  destruct (dedupe_idents_distinct_iff [cps "a_b"; cps "a_b"; cps "a_b_3"])
    as (out & E & H).
  exists out. split; [exact E|]. apply H.
  intros x y k Hx Hy Hk.
  assert (Hc : count_str x [cps "a_b"; cps "a_b"; cps "a_b_3"] <= 2).
  { cbn [In] in Hx. destruct Hx as [<-|[<-|[<-|[]]]]; vm_compute; discriminate. }
  assert (k = 2) as -> by lia.
  cbn [In] in Hx, Hy.
  destruct Hx as [<-|[<-|[<-|[]]]]; destruct Hy as [<-|[<-|[<-|[]]]];
    discriminate.
Defined.

(** ** map_mysql_to_pg: precision, scale and length; letter case *)

Lemma span_app d P c r :
  forallb d P = true -> d c = false -> span d (P ++ c :: r) = (P, c :: r).
Proof.
  intros HP Hc. induction P as [|x P IH]; cbn [app span].
  - now rewrite Hc.
  - cbn [forallb] in HP. apply andb_prop in HP as [Hx HP].
    now rewrite Hx, IH.
Qed.

Lemma digits1_app d P c r :
  is_digits d P -> d c = false -> digits1 d (P ++ c :: r) = Some (P, c :: r).
Proof.
  intros [Hne HP] Hc. unfold digits1. rewrite span_app by assumption.
  destruct P; [congruence|reflexivity].
Qed.

Lemma re_digit_ascii U P :
  ascii_conformant U -> is_digits is_09 P -> is_digits (re_digit U) P.
Proof.
  intros (_ & _ & _ & Hd) [Hne HP]. split; [exact Hne|].
  rewrite forallb_forall in HP |- *. intros c Hc.
  pose proof (HP c Hc) as H9. rewrite Hd; [exact H9|].
  apply is_09_plain in H9. now apply andb_prop in H9 as [H9 _].
Qed.

Lemma re_search_skip {A} (m : pystr -> option A) pre s :
  (forall c t, In c pre -> m (c :: t) = None) ->
  re_search m (pre ++ s) = re_search m s.
Proof.
  intros H. induction pre as [|c pre IH]; [reflexivity|].
  cbn [app re_search]. rewrite H by now left.
  apply IH. intros c' t Hc'. apply H. now right.
Qed.

Lemma re_search_here {A} (m : pystr -> option A) s r :
  m s = Some r -> re_search m s = Some r.
Proof. intros H. destruct s; cbn [re_search]; now rewrite H. Qed.

Lemma eat_other c x t : x <> c -> eat c (x :: t) = None.
Proof. intros H. cbn [eat]. now destruct (N.eqb_spec x c). Qed.

Lemma match_precision_scale_here U P S post :
  ascii_conformant U -> is_digits is_09 P -> is_digits is_09 S ->
  match_precision_scale (re_digit U)
    (cps "(" ++ P ++ cps "," ++ S ++ cps ")" ++ post)
  = Some (P, S).
Proof.
  intros HU HP HS. pose proof HU as (_ & _ & _ & Hd).
  change (cps "(") with [40]. change (cps ",") with [44].
  change (cps ")") with [41]. cbn [app]. unfold match_precision_scale.
  cbn [eat N.eqb Pos.eqb mbind option_bind].
  rewrite digits1_app by (try apply re_digit_ascii; try apply Hd; easy).
  cbn [eat N.eqb Pos.eqb mbind option_bind].
  rewrite digits1_app by (try apply re_digit_ascii; try apply Hd; easy).
  reflexivity.
Qed.

Lemma match_length_here U P post :
  ascii_conformant U -> is_digits is_09 P ->
  match_length (re_digit U) (cps "(" ++ P ++ cps ")" ++ post) = Some P.
Proof.
  intros HU HP. pose proof HU as (_ & _ & _ & Hd).
  change (cps "(") with [40]. change (cps ")") with [41]. cbn [app].
  unfold match_length. cbn [eat N.eqb Pos.eqb mbind option_bind].
  rewrite digits1_app by (try apply re_digit_ascii; try apply Hd; easy).
  reflexivity.
Qed.

Lemma re_search_no_paren {A} (m : pystr -> option A) s :
  m [] = None -> (forall c t, c <> 40 -> m (c :: t) = None) ->
  ~ In 40 s -> re_search m s = None.
Proof.
  intros H0 H Hs. induction s as [|c s IH]; cbn [re_search].
  - now rewrite H0.
  - rewrite H by (intros ->; apply Hs; now left).
    apply IH. intros Hin. apply Hs. now right.
Qed.

Lemma match_precision_scale_other d c t :
  c <> 40 -> match_precision_scale d (c :: t) = None.
Proof. intros H. unfold match_precision_scale. now rewrite eat_other. Qed.

Lemma match_length_other d c t : c <> 40 -> match_length d (c :: t) = None.
Proof. intros H. unfold match_length. now rewrite eat_other. Qed.

Lemma lower_stable_digits n : forallb lower_stable (py_str_int n) = true.
Proof.
  destruct (py_str_int_digits n) as [_ H].
  exact (forallb_impl is_09 lower_stable _ is_09_plain H).
Qed.

Lemma map_mysql_to_pg_decimal_eq U dt ct :
  ascii_conformant U -> In dt [cps "decimal"; cps "numeric"] ->
  map_mysql_to_pg U (Some dt) ct
  = match re_search (match_precision_scale (re_digit U))
            (py_lower U (or_empty ct)) with
    | Some (g1, g2) => cps "numeric(" ++ g1 ++ cps "," ++ g2 ++ cps ")"
    | None => cps "numeric"
    end.
Proof.
  intros HU [<-|[<-|[]]]; unfold map_mysql_to_pg; cbn [or_empty].
  - rewrite (py_lower_ascii U (cps "decimal")) by (try reflexivity; exact HU).
    reflexivity.
  - rewrite (py_lower_ascii U (cps "numeric")) by (try reflexivity; exact HU).
    reflexivity.
Qed.

Lemma map_mysql_to_pg_varchar_eq U dt ct :
  ascii_conformant U -> In dt [cps "varchar"; cps "char"] ->
  map_mysql_to_pg U (Some dt) ct
  = match re_search (match_length (re_digit U)) (py_lower U (or_empty ct)) with
    | Some g1 => cps "varchar(" ++ g1 ++ cps ")"
    | None => cps "text"
    end.
Proof.
  intros HU [<-|[<-|[]]]; unfold map_mysql_to_pg; cbn [or_empty].
  - rewrite (py_lower_ascii U (cps "varchar")) by (try reflexivity; exact HU).
    reflexivity.
  - rewrite (py_lower_ascii U (cps "char")) by (try reflexivity; exact HU).
    reflexivity.
Qed.

Lemma py_lower_stable U s :
  ascii_conformant U -> forallb lower_stable s = true -> py_lower U s = s.
Proof. exact (py_lower_ascii U s). Qed.

Lemma lower_no_paren s :
  ~ In 40 s -> ~ In 40 (List.map ascii_lower_char s).
Proof.
  intros H Hin. apply in_map_iff in Hin as (c & Hc & Hin). apply H.
  replace 40 with c; [exact Hin|]. revert Hc. class_cases.
Qed.

(** X4. For the type codes [decimal] and [numeric], when the full type
    string carries a parenthesised pair [(p,s)] after a text without an open
    parenthesis, as in [decimal(10,2) unsigned], the target type is
    [numeric(p,s)] with the same precision and scale; when the type string has
    no open parenthesis at all, it is the unconstrained [numeric]. *)
Theorem map_mysql_to_pg_decimal (U : unicode_db) (HU : ascii_conformant U)
    (dt : pystr) :
  In dt [cps "decimal"; cps "numeric"] ->
  (forall (pre post : pystr) (p s : N),
      forallb lower_stable pre = true -> ~ In 40 pre ->
      forallb lower_stable post = true ->
      map_mysql_to_pg U (Some dt)
        (Some (pre ++ cps "(" ++ py_str_int p ++ cps "," ++ py_str_int s
               ++ cps ")" ++ post))
      = cps "numeric(" ++ py_str_int p ++ cps "," ++ py_str_int s ++ cps ")") /\
  (forall ct,
      forallb is_ascii ct = true -> ~ In 40 ct ->
      map_mysql_to_pg U (Some dt) (Some ct) = cps "numeric").
Proof.
  intros Hdt. split.
  - intros pre post p s Hpre Hno Hpost.
    rewrite map_mysql_to_pg_decimal_eq by assumption. cbn [or_empty].
    rewrite py_lower_stable; [|exact HU|].
    2: { rewrite !forallb_app, Hpre, Hpost, !lower_stable_digits.
         reflexivity. }
    rewrite re_search_skip.
    2: { intros c t Hc. apply match_precision_scale_other. now intros ->. }
    rewrite (re_search_here _ _ (py_str_int p, py_str_int s)); [reflexivity|].
    apply match_precision_scale_here; [exact HU| |]; apply py_str_int_digits.
  - intros ct Hct Hno.
    rewrite map_mysql_to_pg_decimal_eq by assumption. cbn [or_empty].
    destruct HU as (Hl & _). rewrite Hl by exact Hct.
    rewrite re_search_no_paren; [reflexivity|reflexivity| |].
    + intros c t Hc. now apply match_precision_scale_other.
    + now apply lower_no_paren.
Qed.

Lemma map_mysql_to_pg_decimal_witness :
  ascii_conformant ascii_db /\
  map_mysql_to_pg ascii_db (Some (cps "decimal"))
    (Some (cps "decimal(10,2) unsigned"))
  = cps "numeric(10,2)" /\
  map_mysql_to_pg ascii_db (Some (cps "numeric")) (Some (cps "DECIMAL"))
  = cps "numeric".
Proof.
  split; [exact ascii_db_conformant|]. split.
  - exact (proj1 (map_mysql_to_pg_decimal ascii_db ascii_db_conformant
                    (cps "decimal") ltac:(now left))
             (cps "decimal") (cps " unsigned") 10 2 eq_refl
             ltac:(vm_compute; intuition discriminate) eq_refl).
  - apply (proj2 (map_mysql_to_pg_decimal ascii_db ascii_db_conformant
                    (cps "numeric") ltac:(right; now left)));
      [reflexivity|vm_compute; intuition discriminate].
Defined.

(** X5. For the type codes [varchar] and [char], when the full type string
    carries a parenthesised length [(n)] after a text without an open
    parenthesis, as in [varchar(255)], the target type is [varchar(n)] with
    the same length; when the type string has no open parenthesis, it is
    [text]. *)
Theorem map_mysql_to_pg_varchar (U : unicode_db) (HU : ascii_conformant U)
    (dt : pystr) :
  In dt [cps "varchar"; cps "char"] ->
  (forall (pre post : pystr) (n : N),
      forallb lower_stable pre = true -> ~ In 40 pre ->
      forallb lower_stable post = true ->
      map_mysql_to_pg U (Some dt)
        (Some (pre ++ cps "(" ++ py_str_int n ++ cps ")" ++ post))
      = cps "varchar(" ++ py_str_int n ++ cps ")") /\
  (forall ct,
      forallb is_ascii ct = true -> ~ In 40 ct ->
      map_mysql_to_pg U (Some dt) (Some ct) = cps "text").
Proof.
  intros Hdt. split.
  - intros pre post n Hpre Hno Hpost.
    rewrite map_mysql_to_pg_varchar_eq by assumption. cbn [or_empty].
    rewrite py_lower_stable; [|exact HU|].
    2: { rewrite !forallb_app, Hpre, Hpost, !lower_stable_digits.
         reflexivity. }
    rewrite re_search_skip.
    2: { intros c t Hc. apply match_length_other. now intros ->. }
    rewrite (re_search_here _ _ (py_str_int n)); [reflexivity|].
    apply match_length_here; [exact HU|]. apply py_str_int_digits.
  - intros ct Hct Hno.
    rewrite map_mysql_to_pg_varchar_eq by assumption. cbn [or_empty].
    destruct HU as (Hl & _). rewrite Hl by exact Hct.
    rewrite re_search_no_paren; [reflexivity|reflexivity| |].
    + intros c t Hc. now apply match_length_other.
    + now apply lower_no_paren.
Qed.

Lemma map_mysql_to_pg_varchar_witness :
  ascii_conformant ascii_db /\
  map_mysql_to_pg ascii_db (Some (cps "varchar")) (Some (cps "varchar(255)"))
  = cps "varchar(255)" /\
  map_mysql_to_pg ascii_db (Some (cps "char")) (Some (cps "char"))
  = cps "text".
Proof.
  split; [exact ascii_db_conformant|]. split.
  - exact (proj1 (map_mysql_to_pg_varchar ascii_db ascii_db_conformant
                    (cps "varchar") ltac:(now left))
             (cps "varchar") [] 255 eq_refl
             ltac:(vm_compute; intuition discriminate) eq_refl).
  - apply (proj2 (map_mysql_to_pg_varchar ascii_db ascii_db_conformant
                    (cps "char") ltac:(right; now left)));
      [reflexivity|vm_compute; intuition discriminate].
Defined.

Lemma ascii_lower_char_idem c :
  ascii_lower_char (ascii_lower_char c) = ascii_lower_char c.
Proof. class_cases. Qed.

Lemma ascii_lower_char_ascii c :
  is_ascii c = true -> is_ascii (ascii_lower_char c) = true.
Proof. class_cases. Qed.

Lemma py_lower_lower U s :
  ascii_conformant U -> forallb is_ascii s = true ->
  py_lower U (List.map ascii_lower_char s) = py_lower U s.
Proof.
  intros (Hl & _) Hs. rewrite !Hl; [|exact Hs|].
  - rewrite List.map_map. apply List.map_ext. intros c.
    apply ascii_lower_char_idem.
  - rewrite forallb_forall in Hs |- *. intros c Hc.
    apply in_map_iff in Hc as (c' & <- & Hc').
    apply ascii_lower_char_ascii, Hs, Hc'.
Qed.

(** X6. The result of [map_mysql_to_pg] does not depend on the letter case
    of its arguments: on ASCII arguments it is the same as on their lower-case
    forms, so [DECIMAL] and [Decimal] are mapped like [decimal]. *)
Theorem map_mysql_to_pg_case (U : unicode_db) (HU : ascii_conformant U)
    (dt ct : pystr) :
  forallb is_ascii dt = true -> forallb is_ascii ct = true ->
  map_mysql_to_pg U (Some dt) (Some ct)
  = map_mysql_to_pg U (Some (List.map ascii_lower_char dt))
      (Some (List.map ascii_lower_char ct)).
Proof.
  intros Hdt Hct. unfold map_mysql_to_pg. cbn [or_empty].
  now rewrite !py_lower_lower by assumption.
Qed.

Lemma map_mysql_to_pg_case_witness :
  ascii_conformant ascii_db /\
  map_mysql_to_pg ascii_db (Some (cps "DateTime")) (Some (cps "DATETIME"))
  = map_mysql_to_pg ascii_db (Some (cps "datetime")) (Some (cps "datetime")).
Proof.
  split; [exact ascii_db_conformant|].
  exact (map_mysql_to_pg_case ascii_db ascii_db_conformant
           (cps "DateTime") (cps "DATETIME") eq_refl eq_refl).
Defined.

(** ** The DEFAULT clause *)

Lemma forallb_numeral_digits d g :
  forallb d g = true -> forallb (numeral_char d) g = true.
Proof.
  apply forallb_impl. intros c Hc. unfold numeral_char. now rewrite Hc.
Qed.

Lemma fullmatch_number_chars d s :
  fullmatch_number d s = true -> forallb (numeral_char d) s = true.
Proof.
  unfold fullmatch_number.
  assert (B : forall s1,
             match digits1 d s1 with
             | None => false
             | Some (_, []) => true
             | Some (_, c :: t) =>
                 (c =? 46) && match digits1 d t with
                              | Some (_, []) => true
                              | _ => false
                              end
             end = true ->
             forallb (numeral_char d) s1 = true).
  { intros s1. destruct (digits1 d s1) as [[g r]|] eqn:E; [|discriminate].
    apply digits1_spec in E as ([_ Hg] & -> & _).
    rewrite forallb_app, (forallb_numeral_digits d g Hg).
    destruct r as [|c t]; [reflexivity|].
    intros [Hc Ht]%andb_prop. apply N.eqb_eq in Hc. subst c.
    destruct (digits1 d t) as [[g2 r2]|] eqn:E2; [|discriminate].
    destruct r2; [|discriminate].
    apply digits1_spec in E2 as ([_ Hg2] & -> & _).
    rewrite app_nil_r. cbn [forallb andb].
    rewrite (forallb_numeral_digits d g2 Hg2).
    unfold numeral_char. cbn. now rewrite !orb_true_r. }
  destruct s as [|c t]; [apply B|].
  destruct ((c =? 45) || (c =? 43)) eqn:Es; [|apply B].
  intros H. cbn [forallb]. rewrite (B t H), andb_true_r.
  unfold numeral_char. apply orb_prop in Es as [Es|Es]; rewrite Es;
    now rewrite ?orb_true_r.
Qed.

(** X7. The default text of a source column reaches the DDL as raw SQL only
    when it is a signed decimal numeral, made of digits, a sign and a point;
    any other default text is passed as a quoted literal or left out.  A
    column without a default gets no DEFAULT clause. *)
Theorem default_clause_raw_sql (U : unicode_db) (pg_type : pystr)
    (default : option pystr) (leaf : composable) :
  In leaf (sql_leaves (default_clause U pg_type default)) ->
  (default = None -> leaf = SQL []) /\
  (In leaf [SQL []; SQL (cps " DEFAULT false"); SQL (cps " DEFAULT true");
            SQL (cps " DEFAULT ")] \/
   exists d,
     default = Some d /\
     (leaf = Literal d \/
      leaf = SQL d /\ fullmatch_number (re_digit U) d = true /\
      forallb (numeral_char (re_digit U)) d = true)).
Proof.
  unfold default_clause. destruct default as [d|].
  - intros H. split; [discriminate|]. revert H.
    repeat match goal with
      | |- context [if ?b then _ else _] =>
          lazymatch b with
          | context [if _ then _ else _] => fail
          | _ => let E := fresh "E" in destruct b eqn:E
          end
      end;
    cbn [sql_leaves sql_add composed_items app flat_map In];
    intros H; repeat destruct H as [<-|H]; try destruct H;
    try (left; cbn [In]; tauto).
    + right. exists d. split; [reflexivity|]. right.
      split; [reflexivity|]. split; [assumption|].
      now apply fullmatch_number_chars.
    + right. exists d. split; [reflexivity|]. now left.
  - cbn [sql_leaves In]. intros [<-|[]]. split; [reflexivity|].
    left. now left.
Qed.

Lemma default_clause_raw_sql_witness :
  In (SQL (cps "0.00"))
    (sql_leaves (default_clause ascii_db (cps "numeric(10,2)")
                   (Some (cps "0.00")))) /\
  (In (SQL (cps "0.00"))
      [SQL []; SQL (cps " DEFAULT false"); SQL (cps " DEFAULT true");
       SQL (cps " DEFAULT ")] \/
   exists d,
     Some (cps "0.00") = Some d /\
     (SQL (cps "0.00") = Literal d \/
      SQL (cps "0.00") = SQL d /\ fullmatch_number is_09 d = true /\
      forallb (numeral_char is_09) d = true)).
Proof.
  assert (H : In (SQL (cps "0.00"))
                (sql_leaves (default_clause ascii_db (cps "numeric(10,2)")
                               (Some (cps "0.00"))))).
  { vm_compute. right. now left. }
  split; [exact H|].
  exact (proj2 (default_clause_raw_sql ascii_db (cps "numeric(10,2)")
                  (Some (cps "0.00")) (SQL (cps "0.00")) H)).
Defined.

(** ** load_data: an empty source, and which rows each statement carries *)



Lemma load_loop_slices {Row : Type} batch_size stmt :
  (0 < batch_size)%Z ->
  forall (n : nat) (unread : list Row) pg total,
    (length unread <= n)%nat ->
    exists chunks,
      load_loop batch_size stmt unread pg total
      = (pg ++ flat_map (fun chunk => [PgExecuteValues stmt chunk; PgCommit])
                 chunks,
         (total + Z.of_nat (length unread))%Z) /\
      forall (i : nat) chunk,
        chunks !! i = Some chunk ->
        chunk <> [] /\
        chunk = take (Z.to_nat batch_size)
                  (drop (i * Z.to_nat batch_size) unread).
Proof.
  intros HB. assert (Hk : (0 < Z.to_nat batch_size)%nat) by lia.
  assert (E0 : (batch_size =? 0)%Z = false) by (apply Z.eqb_neq; lia).
  induction n as [|n IH]; intros unread pg total Hn;
    rewrite load_loop_step; unfold fetchmany; rewrite E0;
    (destruct unread as [|x u];
     [ exists []; rewrite take_nil, app_nil_r, Z.add_0_r;
       split; [reflexivity|]; intros i chunk Hi; destruct i; discriminate Hi |]).
  - cbn [length] in Hn. lia.
  - destruct (Z.to_nat batch_size) as [|k] eqn:Ek; [lia|].
    cbn [take drop]. cbn [length] in Hn.
    assert (Hd : (length (drop k u) <= n)%nat) by (rewrite length_drop; lia).
    destruct (IH (drop k u)
                (pg_commit
                   (execute_values pg stmt (x :: take k u)
                      (length (x :: take k u))))
                (total + Z.of_nat (length (x :: take k u)))%Z Hd)
      as (chunks & E & Hc).
    exists ((x :: take k u) :: chunks). rewrite E.
    rewrite execute_values_all by discriminate. unfold pg_commit.
    cbn [flat_map length]. rewrite length_take, length_drop. split.
    + f_equal; [now rewrite <- !app_assoc|]. lia.
    + intros [|i] chunk Hi.
      * injection Hi as <-. split; [discriminate|reflexivity].
      * destruct (Hc i chunk Hi) as [Hne ->]. split; [exact Hne|].
        rewrite drop_drop.
        replace (S i * S k)%nat with (S (k + i * S k)) by lia.
        reflexivity.
Qed.

(** X9. With a batch size [B > 0], the [i]-th insert statement of
    [load_data] carries the rows [i*B] to [i*B + B - 1] of the source cursor,
    fewer in the last one, and never an empty list: every chunk but the last
    has exactly [B] rows. *)
Theorem load_data_slices {Row : Type} (my : my_conn Row) (pg : pg_conn Row)
    (src_db src_table schema_norm table_norm : pystr)
    (pg_cols mysql_cols : list pystr) (batch_size : Z) :
  (0 < batch_size)%Z ->
  let rows := my_select my (select_sql mysql_cols src_db src_table) in
  let B := Z.to_nat batch_size in
  exists stmt chunks,
    load_data my pg src_db src_table schema_norm table_norm pg_cols mysql_cols
      batch_size
    = Ok (pg ++ flat_map (fun chunk => [PgExecuteValues stmt chunk; PgCommit])
                  chunks,
          Z.of_nat (length rows)) /\
    forall (i : nat) chunk,
      chunks !! i = Some chunk ->
      chunk <> [] /\ chunk = take B (drop (i * B) rows) /\
      ((S i < length chunks)%nat -> length chunk = B).
Proof.
  intros HB rows B. unfold load_data. rewrite insert_stmt_eq. cbn [bind].
  fold rows.
  destruct (load_loop_slices batch_size
              (Composed [SQL (cps "INSERT INTO "); Identifier schema_norm;
                         SQL (cps "."); Identifier table_norm; SQL (cps " (");
                         sql_join (SQL (cps ", ")) (List.map Identifier pg_cols);
                         SQL (cps ") VALUES %s")])
              HB (length rows) rows pg 0%Z (Nat.le_refl _))
    as (chunks & E & Hc).
  eexists. exists chunks. rewrite E. split; [reflexivity|].
  intros i chunk Hi. destruct (Hc i chunk Hi) as [Hne Hch].
  split; [exact Hne|]. split; [exact Hch|]. intros Hlast.
  destruct (lookup_lt_is_Some_2 chunks (S i) Hlast) as [next Hnext].
  destruct (Hc (S i) next Hnext) as [Hne' Hch'].
  assert (Hlen : (S i * B < length rows)%nat).
  { destruct (Nat.lt_ge_cases (S i * B) (length rows)) as [H|H]; [exact H|].
    rewrite drop_ge in Hch' by exact H. rewrite take_nil in Hch'.
    congruence. }
  rewrite Hch, length_take, length_drop. fold B. lia.
Qed.

Lemma load_data_slices_witness :
  (0 < 2)%Z /\
  exists stmt chunks,
    load_data example_source [] (cps "ahp") (cps "destinos") (cps "prd_ahp")
      (cps "destinos") [cps "id"; cps "precio_m2"] [cps "id"; cps "Precio m2"] 2
    = Ok (flat_map (fun chunk => [PgExecuteValues stmt chunk; PgCommit]) chunks,
          3%Z) /\
    forall chunk, chunks !! 1%nat = Some chunk -> chunk = [(3, 30)%nat].
Proof.
  split; [lia|].
  destruct (load_data_slices example_source [] (cps "ahp") (cps "destinos")
              (cps "prd_ahp") (cps "destinos") [cps "id"; cps "precio_m2"]
              [cps "id"; cps "Precio m2"] 2 ltac:(lia))
    as (stmt & chunks & E & Hc).
  exists stmt, chunks. split; [exact E|].
  intros chunk Hi. destruct (Hc 1%nat chunk Hi) as (_ & -> & _). reflexivity.
Defined.

(** ** ensure_schema_and_table: the names it returns *)

Lemma ensure_schema_and_table_inv {Row : Type} U (pg pg' : pg_conn Row)
    schema table mysql_cols mysql_pk_cols sn tn pg_cols names :
  ensure_schema_and_table U pg schema table mysql_cols mysql_pk_cols
  = Ok (pg', (sn, tn, pg_cols, names)) ->
  normalize_ident U schema = Ok sn /\
  normalize_ident U table = Ok tn /\
  names = List.map COLUMN_NAME mysql_cols /\
  exists normalized,
    map_result (normalize_ident U) names = Ok normalized /\
    dedupe_idents normalized = Ok pg_cols.
Proof.
  unfold ensure_schema_and_table. intros E.
  destruct (normalize_ident U schema) as [sn'|]; [|discriminate E].
  destruct (normalize_ident U table) as [tn'|]; [|discriminate E].
  cbn [bind] in E.
  destruct (map_result (normalize_ident U) _) as [x1|] eqn:E1;
    [|discriminate E].
  cbn [bind] in E.
  destruct (dedupe_idents x1) as [x2|] eqn:E2; [|discriminate E].
  cbn [bind] in E.
  rewrite pk_normalized_eq in E. cbn [bind] in E.
  rewrite (map_result_map _ _ _ (fun cn => column_def_eq U cn.1 cn.2)) in E.
  cbn [bind] in E. rewrite primary_key_clause_eq in E. cbn [bind] in E.
  rewrite create_schema_eq, create_table_eq in E.
  cbn [bind] in E. injection E as _ <- <- <- <-.
  repeat split. exists x1. now split.
Qed.

Lemma map_result_lookup {A B : Type} (f : A -> result B) l l' :
  map_result f l = Ok l' ->
  length l' = length l /\
  forall (i : nat) y, l' !! i = Some y -> exists x, l !! i = Some x /\ f x = Ok y.
Proof.
  revert l'. induction l as [|x l IH]; intros l'; cbn [map_result].
  - intros [= <-]. split; [reflexivity|]. intros i y H. destruct i; discriminate.
  - destruct (f x) as [y0|] eqn:Ex; [|discriminate]. cbn [bind].
    destruct (map_result f l) as [r|]; [|discriminate]. cbn [bind].
    intros [= <-]. destruct (IH r eq_refl) as [Hl Hi]. split.
    + cbn [length]. now rewrite Hl.
    + intros [|i] y H.
      * injection H as <-. now exists x.
      * apply (Hi i y H).
Qed.

Lemma ensure_schema_and_table_length {Row : Type} U (pg pg' : pg_conn Row)
    schema table mysql_cols mysql_pk_cols sn tn pg_cols names :
  ensure_schema_and_table U pg schema table mysql_cols mysql_pk_cols
  = Ok (pg', (sn, tn, pg_cols, names)) ->
  length pg_cols = length mysql_cols.
Proof.
  intros E. apply ensure_schema_and_table_inv in E
    as (_ & _ & -> & normalized & En & Ed).
  apply map_result_lookup in En as [Hln _].
  destruct (dedupe_idents_ok normalized) as (out & Ed' & Hlo).
  rewrite Ed in Ed'. injection Ed' as <-. rewrite length_map in Hln. lia.
Qed.

Lemma matches_identifier_deduped x k :
  matches_identifier x = true -> matches_identifier (deduped_name x k) = true.
Proof.
  intros H. unfold deduped_name. destruct (k =? 0); [exact H|].
  destruct x as [|c t]; [discriminate H|]. cbn [matches_identifier] in H.
  apply andb_prop in H as [Hc Ht]. cbn [app matches_identifier].
  rewrite Hc, !forallb_app, Ht.
  destruct (py_str_int_digits (k + 1)) as [_ Hd].
  rewrite (forallb_impl is_09 ident_class _ ltac:(clear; class_cases) Hd).
  reflexivity.
Qed.

(** X10. [ensure_schema_and_table] returns one target column name for each
    source column, in the same order: the [i]-th one is the normalised name of
    the [i]-th source column, or that name with a suffix [_k].  The schema,
    table and column names it returns all match [[a-z_][a-z0-9_]*], the
    suffixed ones included. *)
Theorem ensure_schema_and_table_names {Row : Type} (U : unicode_db)
    (HU : ascii_conformant U) (pg : pg_conn Row) (schema table : pystr)
    (mysql_cols : list mysql_column) (mysql_pk_cols : list pystr) :
  exists pg' schema_norm table_norm pg_cols,
    ensure_schema_and_table U pg schema table mysql_cols mysql_pk_cols
    = Ok (pg', (schema_norm, table_norm, pg_cols,
                List.map COLUMN_NAME mysql_cols)) /\
    matches_identifier schema_norm = true /\
    matches_identifier table_norm = true /\
    length pg_cols = length mysql_cols /\
    Forall (fun name => matches_identifier name = true) pg_cols /\
    forall (i : nat) c,
      mysql_cols !! i = Some c ->
      exists n k,
        normalize_ident U (COLUMN_NAME c) = Ok n /\
        pg_cols !! i = Some (deduped_name n k).
Proof.
  destruct (ensure_schema_and_table_spec U HU pg schema table mysql_cols
              mysql_pk_cols)
    as (sn & tn & pg_cols & name_map & pk_norm & ddl & body & E & _).
  pose proof (ensure_schema_and_table_inv _ _ _ _ _ _ _ _ _ _ _ E)
    as (Hsn & Htn & _ & normalized & En & Ed).
  exists (pg ++ [PgExecute ddl; PgCommit]), sn, tn, pg_cols.
  split; [exact E|].
  destruct (normalize_ident_normal_form U schema HU) as (r1 & E1 & N1).
  destruct (normalize_ident_normal_form U table HU) as (r2 & E2 & N2).
  rewrite E1 in Hsn. injection Hsn as <-. rewrite E2 in Htn. injection Htn as <-.
  split; [now apply normal_form_matches in N1|].
  split; [now apply normal_form_matches in N2|].
  destruct (map_result_lookup _ _ _ En) as [Hln Hn].
  destruct (dedupe_idents_lookup normalized) as (out & Ed' & Hlo & Ho).
  rewrite Ed in Ed'. injection Ed' as <-.
  rewrite length_map in Hln.
  assert (Hi : forall (i : nat) c, mysql_cols !! i = Some c ->
                 exists n k, normalize_ident U (COLUMN_NAME c) = Ok n /\
                             normal_form n = true /\
                             pg_cols !! i = Some (deduped_name n k)).
  { intros i c Hc.
    destruct (normalized !! i) as [n|] eqn:Hni.
    - destruct (Hn i n Hni) as (x & Hx & Ex).
      rewrite list_lookup_fmap, Hc in Hx. injection Hx as <-.
      exists n, (count_str n (take i normalized)).
      split; [exact Ex|]. split; [|now apply Ho].
      destruct (normalize_ident_normal_form U (COLUMN_NAME c) HU)
        as (r & Er & Nr).
      rewrite Er in Ex. now injection Ex as <-.
    - apply lookup_ge_None in Hni. apply lookup_lt_Some in Hc. lia. }
  split; [lia|]. split.
  - apply Forall_lookup. intros i name Hname.
    destruct (mysql_cols !! i) as [c|] eqn:Hc.
    + destruct (Hi i c Hc) as (n & k & _ & Nn & Hp).
      rewrite Hp in Hname. injection Hname as <-.
      apply matches_identifier_deduped. now apply normal_form_matches in Nn.
    + apply lookup_ge_None in Hc. apply lookup_lt_Some in Hname. lia.
  - intros i c Hc. destruct (Hi i c Hc) as (n & k & En' & _ & Hp).
    now exists n, k.
Qed.

Lemma ensure_schema_and_table_names_witness :
  ascii_conformant ascii_db /\
  exists pg' schema_norm table_norm pg_cols,
    ensure_schema_and_table (Row := nat) ascii_db [] (cps "prd_ahp")
      (cps "Destinos 2024") example_columns [cps "id"]
    = Ok (pg', (schema_norm, table_norm, pg_cols,
                [cps "id"; cps "Precio m2"])) /\
    matches_identifier table_norm = true /\
    length pg_cols = 2%nat.
Proof.
  split; [exact ascii_db_conformant|].
  destruct (ensure_schema_and_table_names (Row := nat) ascii_db
              ascii_db_conformant [] (cps "prd_ahp") (cps "Destinos 2024")
              example_columns [cps "id"])
    as (pg' & sn & tn & pg_cols & E & _ & Htn & Hl & _).
  exists pg', sn, tn, pg_cols. split; [exact E|]. split; [exact Htn|exact Hl].
Defined.

(** ** The ingestion of one table *)

(** X11. The ingestion of a table whose columns are found, with a batch size
    [B > 0], issues on the target, in this order and nothing else: the DDL and
    a commit; in replace mode a TRUNCATE of the target and a commit; then the
    rows of the source in order, in insert statements each followed by a
    commit.  The insert names as many target columns as the SELECT names
    source columns, and the count returned is the number of source rows. *)
Theorem main_ingest_trace {Row : Type} (U : unicode_db)
    (HU : ascii_conformant U) (my : my_conn Row) (pg : pg_conn Row)
    (load_mode : pystr) (batch_size : Z)
    (src_db src_table tgt_schema tgt_table : pystr) :
  (0 < batch_size)%Z ->
  my_columns my src_db src_table <> [] ->
  let names := List.map COLUMN_NAME (my_columns my src_db src_table) in
  let rows := my_select my (select_sql names src_db src_table) in
  exists schema_norm table_norm pg_cols ddl stmt chunks,
    normalize_ident U tgt_schema = Ok schema_norm /\
    normalize_ident U tgt_table = Ok table_norm /\
    length pg_cols = length names /\
    insert_stmt schema_norm table_norm pg_cols = Ok stmt /\
    concat chunks = rows /\
    main_ingest U my pg load_mode batch_size src_db src_table tgt_schema
      tgt_table
    = Ok (pg ++ [PgExecute ddl; PgCommit]
          ++ (if str_eqb load_mode (cps "replace") then
                [PgExecute
                   (Composed [SQL (cps "TRUNCATE TABLE ");
                              Identifier schema_norm; SQL (cps ".");
                              Identifier table_norm; SQL (cps ";")]);
                 PgCommit]
              else [])
          ++ flat_map (fun chunk => [PgExecuteValues stmt chunk; PgCommit])
               chunks,
          Z.of_nat (length rows)).
Proof.
  intros HB Hcols names rows. unfold main_ingest, mysql_columns, mysql_pk.
  subst rows names.
  destruct (my_columns my src_db src_table) as [|c cols] eqn:Ec;
    [congruence|]. cbn [bind].
  destruct (ensure_schema_and_table_spec U HU pg tgt_schema tgt_table
              (c :: cols) (my_pk my src_db src_table))
    as (sn & tn & pg_cols & name_map & pk_norm & ddl & body
        & E & Hsn & Htn & _).
  pose proof (ensure_schema_and_table_length _ _ _ _ _ _ _ _ _ _ _ E) as Hlen.
  rewrite E. cbn [bind]. unfold maybe_truncate, load_data.
  rewrite truncate_stmt_eq, insert_stmt_eq.
  set (stmt := Composed [SQL (cps "INSERT INTO "); Identifier sn;
                         SQL (cps "."); Identifier tn; SQL (cps " (");
                         sql_join (SQL (cps ", ")) (List.map Identifier pg_cols);
                         SQL (cps ") VALUES %s")]).
  set (rows := my_select my _).
  exists sn, tn, pg_cols, ddl, stmt.
  destruct (str_eqb load_mode (cps "replace")); cbn [bind].
  - destruct (load_loop_spec batch_size stmt HB (length rows) rows
                (pg_commit
                   (pg_execute (pg ++ [PgExecute ddl; PgCommit])
                      (Composed [SQL (cps "TRUNCATE TABLE "); Identifier sn;
                                 SQL (cps "."); Identifier tn; SQL (cps ";")])))
                0%Z (Nat.le_refl _))
      as (chunks & El & Hc & _).
    exists chunks. rewrite El. unfold pg_commit, pg_execute.
    rewrite length_map. repeat split; try assumption.
    now rewrite <- !app_assoc.
  - destruct (load_loop_spec batch_size stmt HB (length rows) rows
                (pg ++ [PgExecute ddl; PgCommit]) 0%Z (Nat.le_refl _))
      as (chunks & El & Hc & _).
    exists chunks. rewrite El. rewrite length_map.
    repeat split; try assumption. now rewrite <- !app_assoc.
Qed.

Lemma main_ingest_trace_witness :
  ascii_conformant ascii_db /\ (0 < 2)%Z /\
  my_columns example_source (cps "ahp") (cps "destinos") <> [] /\
  exists ddl stmt chunks,
    main_ingest ascii_db example_source [] (cps "replace") 2
      (cps "ahp") (cps "destinos") (cps "prd_ahp") (cps "Destinos")
    = Ok ([PgExecute ddl; PgCommit;
           PgExecute
             (Composed [SQL (cps "TRUNCATE TABLE "); Identifier (cps "prd_ahp");
                        SQL (cps "."); Identifier (cps "destinos");
                        SQL (cps ";")]);
           PgCommit]
          ++ flat_map (fun chunk => [PgExecuteValues stmt chunk; PgCommit])
               chunks,
          3%Z).
Proof.
  split; [exact ascii_db_conformant|]. split; [lia|]. split; [discriminate|].
  destruct (main_ingest_trace ascii_db ascii_db_conformant example_source []
              (cps "replace") 2 (cps "ahp") (cps "destinos") (cps "prd_ahp")
              (cps "Destinos") ltac:(lia) ltac:(discriminate))
    as (sn & tn & pg_cols & ddl & stmt & chunks & Hsn & Htn & _ & _ & _ & E).
  vm_compute in Hsn. injection Hsn as <-.
  vm_compute in Htn. injection Htn as <-.
  exists ddl, stmt, chunks. exact E.
Defined.



(** ** main: the target schema, and the entries it skips *)

(** X13. The schema name that reaches the DDL is the normalisation of the
    name [main] chose, the target's database (or the fixed schema when the
    target has none) with USE_TARGET_SCHEMA, the fixed schema otherwise:
    normalising it once in [main] and once more in [ensure_schema_and_table]
    changes nothing.  Without the two settings the schema is [prd_ahp]. *)
Theorem main_tgt_schema_normalized {Row : Type} (U : unicode_db)
    (HU : ascii_conformant U) (pg : pg_conn Row) (fixed_schema : pystr)
    (use_target_schema : bool) (target : gmap pystr pystr) (table : pystr)
    (mysql_cols : list mysql_column) (mysql_pk_cols : list pystr) :
  let raw := if use_target_schema
             then dict_get_default target (cps "database") fixed_schema
             else fixed_schema in
  (exists tgt_schema pg' schema_norm table_norm pg_cols,
      main_tgt_schema U fixed_schema use_target_schema target = Ok tgt_schema /\
      ensure_schema_and_table U pg tgt_schema table mysql_cols mysql_pk_cols
      = Ok (pg', (schema_norm, table_norm, pg_cols,
                  List.map COLUMN_NAME mysql_cols)) /\
      normalize_ident U raw = Ok schema_norm) /\
  main_fixed_schema U ∅ = cps "prd_ahp" /\
  main_use_target_schema U ∅ = false /\
  normalize_ident U (cps "prd_ahp") = Ok (cps "prd_ahp").
Proof.
  intros raw. split; [|repeat split].
  - unfold main_tgt_schema. subst raw. destruct use_target_schema.
    + destruct (normalize_ident_normal_form U
                  (dict_get_default target (cps "database") fixed_schema) HU)
        as (s & Es & Ns).
      destruct (ensure_schema_and_table_spec U HU pg s table mysql_cols
                  mysql_pk_cols)
        as (sn & tn & pg_cols & name_map & pk_norm & ddl & body
            & E & Hsn & _).
      rewrite (normalize_ident_fixed U s HU Ns) in Hsn. injection Hsn as <-.
      exists s, (pg ++ [PgExecute ddl; PgCommit]), s, tn, pg_cols.
      now repeat split.
    + destruct (ensure_schema_and_table_spec U HU pg fixed_schema table
                  mysql_cols mysql_pk_cols)
        as (sn & tn & pg_cols & name_map & pk_norm & ddl & body
            & E & Hsn & _).
      exists fixed_schema, (pg ++ [PgExecute ddl; PgCommit]), sn, tn, pg_cols.
      now repeat split.
  - unfold main_fixed_schema, getenv. rewrite lookup_empty.
    destruct HU as (_ & Hs & _).
    rewrite (strip_ext_in (py_isspace U) ascii_isspace); [reflexivity|].
    intros c Hc. apply Hs. revert c Hc. apply forallb_forall. reflexivity.
  - unfold main_use_target_schema, getenv. rewrite lookup_empty.
    destruct HU as (_ & Hs & _).
    rewrite (strip_ext_in (py_isspace U) ascii_isspace); [reflexivity|].
    intros c Hc. apply Hs. revert c Hc. apply forallb_forall. reflexivity.
  - now rewrite normalize_ident_ascii.
Qed.

Lemma main_tgt_schema_normalized_witness :
  ascii_conformant ascii_db /\
  exists tgt_schema pg' table_norm pg_cols,
    main_tgt_schema ascii_db (cps "prd_ahp") true
      (<[cps "database" := cps "DWH Ventas"]> ∅)
    = Ok tgt_schema /\
    ensure_schema_and_table (Row := nat) ascii_db [] tgt_schema
      (cps "destinos") example_columns [cps "id"]
    = Ok (pg', (cps "dwh_ventas", table_norm, pg_cols,
                [cps "id"; cps "Precio m2"])).
Proof.
  split; [exact ascii_db_conformant|].
  destruct (main_tgt_schema_normalized (Row := nat) ascii_db
              ascii_db_conformant [] (cps "prd_ahp") true
              (<[cps "database" := cps "DWH Ventas"]> ∅) (cps "destinos")
              example_columns [cps "id"])
    as ((s & pg' & sn & tn & pg_cols & Es & E & Hn) & _).
  vm_compute in Hn. injection Hn as <-.
  exists s, pg', tn, pg_cols. split; [exact Es|exact E].
Defined.


